(** * CRUD microservices (customer, order, product): handlers over a
    relational session

    The three FastAPI services of [backend/*/app/main.py] are embedded as
    state-passing functions over a model of the SQLAlchemy session they
    receive from [get_db].  Rows are attribute maps (column name to value),
    as [setattr] and [model_dump] treat them; a table is the list of its rows
    in storage order. *)

From stdpp Require Import gmap strings list fin_maps.
From Stdlib Require Import ZArith Ascii String Lia.

Local Open Scope string_scope.
Local Open Scope list_scope.
Local Open Scope Z_scope.

(** ** Values, rows and exceptions *)

(** A column value.  [VFloat] carries its payload opaquely: no handler
    computes with it, values are stored and returned as given. *)
Inductive value : Type :=
  | VNone
  | VStr (s : string)
  | VInt (n : Z)
  | VFloat (bits : Z).

#[global] Instance value_eq_dec : EqDecision value.
Proof. solve_decision. Defined.

(** An ORM object or a dumped pydantic model: attribute name to value. *)
Abbreviation Row := (gmap string value).

(** The exception classes the handlers distinguish.  [IntegrityError] and
    [OperationalError] are the SQLAlchemy classes the sources import;
    [DataError] is raised for an out of range OFFSET or LIMIT;
    [OtherException] is any other subclass of [Exception]. *)
Inductive exn : Type :=
  | IntegrityError
  | OperationalError
  | DataError
  | OtherException (name : string).

#[global] Instance exn_eq_dec : EqDecision exn.
Proof. solve_decision. Defined.

(** What a handler leaves to the framework: a response with its status
    code, an [HTTPException], or an exception it did not catch. *)
Inductive outcome (A : Type) : Type :=
  | Ok (status_code : Z) (body : A)
  | HTTPException (status_code : Z) (detail : string)
  | Uncaught (e : exn).

Arguments Ok {A} status_code body.
Arguments HTTPException {A} status_code detail.
Arguments Uncaught {A} e.

(** ** The storage layer: one table seen through a session *)

(** Where a storage failure hits a request: at [db.commit()], or at the
    [db.refresh()] that follows a commit. *)
Inductive stage : Type := AtCommit | AtRefresh.

(** What the database decides on its own during one request: the failure,
    if any, that the driver raises and the statement it raises it at, and
    the primary key its sequence hands to an inserted row. *)
Record Env : Type := {
  fault : option exn;
  site : stage;
  genid : Z
}.

(** The failure raised at a stage of the request, if any. *)
Definition fault_at (env : Env) (at_stage : stage) : option exn :=
  match site env, at_stage with
  | AtCommit, AtCommit | AtRefresh, AtRefresh => fault env
  | _, _ => None
  end.

(** The unit of work of a session. *)
Inductive Op : Type :=
  | OpAdd (obj : Row)                  (* db.add(obj) *)
  | OpSet (loaded current : Row)       (* setattr on a loaded object *)
  | OpDel (obj : Row).                 (* db.delete(obj) *)

Record Session : Type := {
  table : list Row;      (* committed rows, in storage order *)
  pending : list Op      (* changes not yet committed *)
}.

Section Storage.

(** The primary key column and the columns under a UNIQUE constraint, as
    the table's model class declares them. *)
Variable pk_col : string.
Variable unique_cols : list string.

Definition pk_of (r : Row) : option value := r !! pk_col.

Definition has_pk (v : value) (r : Row) : bool :=
  bool_decide (pk_of r = Some v).

(** Two rows collide on a column when both hold the same non NULL value. *)
Definition clash (c : string) (a b : Row) : bool :=
  match a !! c, b !! c with
  | Some VNone, _ => false
  | Some va, Some vb => bool_decide (va = vb)
  | _, _ => false
  end.

Definition changed (loaded current : Row) (c : string) : bool :=
  bool_decide (loaded !! c ≠ current !! c).

Definition violates (cols : list string) (others : list Row) (obj : Row) : bool :=
  existsb (fun c => existsb (clash c obj) others) cols.

(** The state of a new object once flushed: the database fills in the
    primary key when the object has none. *)
Definition flushed (env : Env) (obj : Row) : Row :=
  match pk_of obj with
  | None | Some VNone => <[pk_col := VInt (genid env)]> obj
  | Some _ => obj
  end.

Definition same_pk (a b : Row) : bool := bool_decide (pk_of a = pk_of b).

(** One statement of the flush: INSERT, UPDATE ... WHERE pk, DELETE ...
    WHERE pk.  A UNIQUE or PRIMARY KEY collision raises
    [IntegrityError].  An UPDATE writes the new version of the row after
    the rows of the table, which is where a scan then finds it. *)
Definition flush_op (env : Env) (t : list Row) (op : Op) : exn + list Row :=
  match op with
  | OpAdd obj =>
      let r := flushed env obj in
      if violates (pk_col :: unique_cols) t r then inl IntegrityError
      else inr (t ++ [r])
  | OpSet loaded current =>
      if decide (loaded = current) then inr t else   (* no net change *)
      let cols := List.filter (changed loaded current) (pk_col :: unique_cols) in
      let others := List.filter (fun r => negb (same_pk loaded r)) t in
      if violates cols others current then inl IntegrityError
      else inr (others ++ [current])
  | OpDel obj =>
      inr (List.filter (fun r => negb (same_pk obj r)) t)
  end.

Fixpoint flush (env : Env) (ops : list Op) (t : list Row) : exn + list Row :=
  match ops with
  | [] => inr t
  | op :: ops' =>
      match flush_op env t op with
      | inl e => inl e
      | inr t' => flush env ops' t'
      end
  end.

(** [db.query(Model)] and its refinements. *)
Definition query (db : Session) : list Row := table db.

Definition filter_pk (id : Z) (q : list Row) : list Row :=
  List.filter (has_pk (VInt id)) q.

Definition first (q : list Row) : option Row := head q.

(** The counts the database accepts for OFFSET and LIMIT: a bigint that
    is not negative.  The handlers pass their [int] unchecked. *)
Definition row_count (n : Z) : bool := (0 <=? n) && (n <? 2 ^ 63).

Definition query_offset (n : Z) (q : exn + list Row) : exn + list Row :=
  match q with
  | inl e => inl e
  | inr l => if row_count n then inr (drop (Z.to_nat n) l) else inl DataError
  end.

Definition query_limit (n : Z) (q : exn + list Row) : exn + list Row :=
  match q with
  | inl e => inl e
  | inr l => if row_count n then inr (take (Z.to_nat n) l) else inl DataError
  end.

Definition all {A} (q : exn + A) : outcome A :=
  match q with
  | inl e => Uncaught e
  | inr l => Ok 200 l
  end.

(** Session methods. *)
Definition add (obj : Row) (db : Session) : Session :=
  {| table := table db; pending := pending db ++ [OpAdd obj] |}.

Definition modified (loaded current : Row) (db : Session) : Session :=
  {| table := table db; pending := pending db ++ [OpSet loaded current] |}.

Definition delete (obj : Row) (db : Session) : Session :=
  {| table := table db; pending := pending db ++ [OpDel obj] |}.

Definition rollback (db : Session) : Session :=
  {| table := table db; pending := [] |}.

(** [db.commit()]: on a failure the database keeps the committed rows, and
    the session, which rolls its transaction back inside the failed
    commit, is left without a unit of work. *)
Definition commit (env : Env) (db : Session) : option exn * Session :=
  match fault_at env AtCommit with
  | Some e => (Some e, rollback db)
  | None =>
      match flush env (pending db) (table db) with
      | inl e => (Some e, rollback db)
      | inr t' => (None, {| table := t'; pending := [] |})
      end
  end.

(** The row of an object in the table, by primary key. *)
Definition reload (obj : Row) (db : Session) : Row :=
  default obj (head (List.filter (same_pk obj) (table db))).

(** [db.refresh(obj)]: reload the object's row, unless the driver fails. *)
Definition refresh (env : Env) (obj : Row) (db : Session) : exn + Row :=
  match fault_at env AtRefresh with
  | Some e => inl e
  | None => inr (reload obj db)
  end.

(** [db.commit(); db.refresh(obj)], as the handlers run them one after the
    other: what is raised, or the refreshed object. *)
Definition commit_refresh (env : Env) (obj : Row) (db : Session)
    : (exn + Row) * Session :=
  match commit env db with
  | (Some e, db) => (inl e, db)
  | (None, db) => (refresh env obj db, db)
  end.

(** [for key, value in update_data.items(): setattr(obj, key, value)] *)
Definition setattrs (update_data : Row) (obj : Row) : Row :=
  map_fold (fun key value o => <[key := value]> o) obj update_data.

End Storage.

Definition session_of (t : list Row) : Session :=
  {| table := t; pending := [] |}.

(** ** Strings: case folding and LIKE patterns *)

(** [str.lower()] and the case folding of ILIKE on ASCII text: the letters
    A to Z are folded.  What the database folds beyond ASCII depends on
    its locale and is not modelled; the statements on searches are over
    ASCII text. *)
Definition lower_ascii (c : ascii) : ascii :=
  let n := N_of_ascii c in
  if ((65 <=? n) && (n <=? 90))%N then ascii_of_N (n + 32) else c.

Fixpoint lower (s : string) : string :=
  match s with
  | EmptyString => EmptyString
  | String c s' => String (lower_ascii c) (lower s')
  end.

(** SQL [LIKE]: [%] matches any run of characters, [_] any one character,
    a backslash makes the character after it stand for itself, every other
    character matches itself.  (A pattern that ends in a lone backslash is
    refused by the database; the patterns of the handlers end in [%].) *)
Fixpoint like (p s : string) : bool :=
  match p with
  | EmptyString => match s with EmptyString => true | String _ _ => false end
  | String c p' =>
      if Ascii.eqb c "%" then
        (fix skip (s : string) : bool :=
           like p' s ||
           match s with EmptyString => false | String _ s' => skip s' end) s
      else if Ascii.eqb c "\" then
        match p', s with
        | String e p'', String d s' => Ascii.eqb e d && like p'' s'
        | _, _ => false
        end
      else
        match s with
        | EmptyString => false
        | String d s' => (Ascii.eqb c "_" || Ascii.eqb c d) && like p' s'
        end
  end.

(** [column.ilike(pattern)]: NULL (and a missing or non text value) never
    satisfies the filter. *)
Definition ilike (col : option value) (pattern : string) : bool :=
  match col with
  | Some (VStr s) => like (lower pattern) (lower s)
  | _ => false
  end.

(** The reading of "contains [x] as a case-insensitive substring" that the
    search is compared with. *)
Fixpoint starts_with (x s : string) : bool :=
  match x, s with
  | EmptyString, _ => true
  | String a x', String b s' => Ascii.eqb a b && starts_with x' s'
  | String _ _, EmptyString => false
  end.

Fixpoint contains (x s : string) : bool :=
  starts_with x s ||
  match s with EmptyString => false | String _ s' => contains x s' end.

Definition contains_ci (col : option value) (x : string) : bool :=
  match col with
  | Some (VStr s) => contains (lower x) (lower s)
  | _ => false
  end.

(** A search text without LIKE metacharacters: [%], [_] and the escape
    character. *)
Definition plain_char (c : ascii) : bool :=
  negb (Ascii.eqb c "%" || Ascii.eqb c "_" || Ascii.eqb c "\").

Fixpoint plain (s : string) : bool :=
  match s with
  | EmptyString => true
  | String c s' => plain_char c && plain s'
  end.

(** Query parameters of a list request; [None] is a parameter the request
    does not carry. *)
Record ListQuery : Type := {
  q_skip : option Z;
  q_limit : option Z;
  q_search : option string
}.

(** ** Customer service *)

Module CustomerService.

(** Modelled from the spec: the [Customer] model class ([models.py]) is not
    part of the sources; its primary key is the [customer_id] the handlers
    filter on, and its email column is unique. *)
Definition pk_col : string := "customer_id".
Definition unique_cols : list string := ["email"].

(** The request schema of [POST /customers/], with the fields the handler
    reads. *)
Record CustomerCreate : Type := {
  email : value;
  password : value;
  first_name : value;
  last_name : value;
  phone_number : value;
  shipping_address : value
}.

Definition Customer (email password_hash first_name last_name
                     phone_number shipping_address : value) : Row :=
  <["email" := email]>
  (<["password_hash" := password_hash]>
  (<["first_name" := first_name]>
  (<["last_name" := last_name]>
  (<["phone_number" := phone_number]>
  (<["shipping_address" := shipping_address]> ∅))))).

Definition create_customer (env : Env) (customer : CustomerCreate)
    (db : Session) : outcome Row * Session :=
  let db_customer :=
    Customer (email customer) (password customer) (first_name customer)
             (last_name customer) (phone_number customer)
             (shipping_address customer) in
  let db := add db_customer db in
  match commit_refresh pk_col unique_cols env
          (flushed pk_col env db_customer) db with
  | (inr db_customer, db) => (Ok 201 db_customer, db)
  | (inl IntegrityError, db) =>
      (HTTPException 400 "Email already registered.", rollback db)
  | (inl _, db) =>
      (HTTPException 500 "Could not create customer.", rollback db)
  end.

Definition list_customers (db : Session) (skip : Z) (limit : Z)
    (search : option string) : outcome (list Row) * Session :=
  let query := query db in
  let query :=
    match search with
    | None | Some "" => query
    | Some search =>
        let pattern := "%" ++ search ++ "%" in
        List.filter (fun c =>
          ilike (c !! "first_name") pattern
          || ilike (c !! "last_name") pattern
          || ilike (c !! "email") pattern) query
    end%string in
  (all (query_limit limit (query_offset skip (inr query))), db).

Definition get_customer (customer_id : Z) (db : Session)
    : outcome Row * Session :=
  match first (filter_pk pk_col customer_id (query db)) with
  | None => (HTTPException 404 "Customer not found", db)
  | Some customer => (Ok 200 customer, db)
  end.

Definition update_customer (env : Env) (customer_id : Z)
    (customer_data : Row) (db : Session) : outcome Row * Session :=
  match first (filter_pk pk_col customer_id (query db)) with
  | None => (HTTPException 404 "Customer not found", db)
  | Some loaded =>
      let update_data := customer_data in
      let db_customer := setattrs update_data loaded in
      let db := modified loaded db_customer db in
      match commit_refresh pk_col unique_cols env db_customer db with
      | (inr db_customer, db) => (Ok 200 db_customer, db)
      | (inl IntegrityError, db) =>
          (HTTPException 400 "Updated email already exists", rollback db)
      | (inl _, db) =>
          (HTTPException 500 "Could not update customer", rollback db)
      end
  end.

Definition delete_customer (env : Env) (customer_id : Z) (db : Session)
    : outcome unit * Session :=
  match first (filter_pk pk_col customer_id (query db)) with
  | None => (HTTPException 404 "Customer not found", db)
  | Some customer =>
      let db := delete customer db in
      match commit pk_col unique_cols env db with
      | (None, db) => (Ok 204 tt, db)
      | (Some _, db) =>
          (HTTPException 500 "Could not delete customer", rollback db)
      end
  end.

(** [GET /customers/] as the router calls the handler: the declared
    parameters with their defaults. *)
Definition get_customers (q : ListQuery) (db : Session)
    : outcome (list Row) * Session :=
  list_customers db (default 0 (q_skip q)) (default 100 (q_limit q))
                 (q_search q).

(** A request to one of the customer routes over the table, and the
    table it leaves committed. *)
Inductive Request : Type :=
  | CreateCustomer (customer : CustomerCreate)
  | ListCustomers (q : ListQuery)
  | GetCustomer (customer_id : Z)
  | UpdateCustomer (customer_id : Z) (customer_data : Row)
  | DeleteCustomer (customer_id : Z).

Definition serve (env : Env) (req : Request) (t : list Row) : list Row :=
  match req with
  | CreateCustomer c => table (snd (create_customer env c (session_of t)))
  | ListCustomers q => table (snd (get_customers q (session_of t)))
  | GetCustomer id => table (snd (get_customer id (session_of t)))
  | UpdateCustomer id data =>
      table (snd (update_customer env id data (session_of t)))
  | DeleteCustomer id => table (snd (delete_customer env id (session_of t)))
  end.

End CustomerService.

(** HTTP methods of the route decorators. *)
Inductive verb : Type := GET | POST | PUT | DELETE.

#[global] Instance verb_eq_dec : EqDecision verb.
Proof. solve_decision. Defined.

(** ** Order service *)

Module OrderService.
Section Schema.

(** The [Order] model class is not part of the sources: its UNIQUE
    columns are a parameter; its primary key is the [order_id] the
    handlers filter on. *)
Variable unique_cols : list string.
Definition pk_col : string := "order_id".

(** [Order] built from the keyword arguments [order.model_dump()]. *)
Definition Order (fields : Row) : Row := fields.

Definition create_order (env : Env) (order : Row) (db : Session)
    : outcome Row * Session :=
  let db_order := Order order in
  let db := add db_order db in
  match commit_refresh pk_col unique_cols env
          (flushed pk_col env db_order) db with
  | (inl e, db) => (Uncaught e, db)
  | (inr db_order, db) => (Ok 201 db_order, db)
  end.

Definition list_orders (db : Session) : outcome (list Row) * Session :=
  (all (inr (query db)), db).

Definition get_order (order_id : Z) (db : Session) : outcome Row * Session :=
  match first (filter_pk pk_col order_id (query db)) with
  | None => (HTTPException 404 "Order not found", db)
  | Some order => (Ok 200 order, db)
  end.

Definition delete_order (env : Env) (order_id : Z) (db : Session)
    : outcome unit * Session :=
  match first (filter_pk pk_col order_id (query db)) with
  | None => (HTTPException 404 "Order not found", db)
  | Some order =>
      let db := delete order db in
      match commit pk_col unique_cols env db with
      | (Some e, db) => (Uncaught e, db)
      | (None, db) => (Ok 204 tt, db)
      end
  end.

(** [GET /orders/]: the handler declares no query parameter, the router
    drops whatever the request carries. *)
Definition get_orders (q : ListQuery) (db : Session)
    : outcome (list Row) * Session :=
  list_orders db.

(** The operations the application registers, by decorator. *)
Definition routes : list (verb * string) :=
  [ (GET, "/health"); (GET, "/"); (POST, "/orders/"); (GET, "/orders/");
    (GET, "/orders/{order_id}"); (DELETE, "/orders/{order_id}") ].

(** A request to one of the routes over the table, and the table it
    leaves committed. *)
Inductive Request : Type :=
  | HealthCheck
  | Root
  | CreateOrder (order : Row)
  | ListOrders (q : ListQuery)
  | GetOrder (order_id : Z)
  | DeleteOrder (order_id : Z).

Definition serve (env : Env) (req : Request) (t : list Row) : list Row :=
  match req with
  | HealthCheck | Root => t
  | CreateOrder order => table (snd (create_order env order (session_of t)))
  | ListOrders q => table (snd (get_orders q (session_of t)))
  | GetOrder order_id => table (snd (get_order order_id (session_of t)))
  | DeleteOrder order_id => table (snd (delete_order env order_id (session_of t)))
  end.

End Schema.
End OrderService.

(** ** Product service *)

Module ProductService.
Section Schema.

(** The [Product] model class is not part of the sources: its UNIQUE
    columns (a name or SKU) are a parameter; its primary key is the
    [product_id] the handlers filter on. *)
Variable unique_cols : list string.
Definition pk_col : string := "product_id".

(** [Product] built from the keyword arguments [product.model_dump()]. *)
Definition Product (fields : Row) : Row := fields.

Definition create_product (env : Env) (product : Row) (db : Session)
    : outcome Row * Session :=
  let db_product := Product product in
  let db := add db_product db in
  match commit_refresh pk_col unique_cols env
          (flushed pk_col env db_product) db with
  | (inr db_product, db) => (Ok 201 db_product, db)
  | (inl IntegrityError, db) =>
      (HTTPException 400 "Product already exists", rollback db)
  | (inl _, db) =>
      (HTTPException 500 "Could not create product", rollback db)
  end.

Definition list_products (db : Session) (skip : Z) (limit : Z)
    : outcome (list Row) * Session :=
  (all (query_limit limit (query_offset skip (inr (query db)))), db).

Definition get_product (product_id : Z) (db : Session)
    : outcome Row * Session :=
  match first (filter_pk pk_col product_id (query db)) with
  | None => (HTTPException 404 "Product not found", db)
  | Some product => (Ok 200 product, db)
  end.

Definition update_product (env : Env) (product_id : Z) (product_data : Row)
    (db : Session) : outcome Row * Session :=
  match first (filter_pk pk_col product_id (query db)) with
  | None => (HTTPException 404 "Product not found", db)
  | Some loaded =>
      let update_data := product_data in
      let product := setattrs update_data loaded in
      let db := modified loaded product db in
      match commit_refresh pk_col unique_cols env product db with
      | (inr product, db) => (Ok 200 product, db)
      | (inl _, db) =>
          (HTTPException 500 "Could not update product", rollback db)
      end
  end.

Definition delete_product (env : Env) (product_id : Z) (db : Session)
    : outcome unit * Session :=
  match first (filter_pk pk_col product_id (query db)) with
  | None => (HTTPException 404 "Product not found", db)
  | Some product =>
      let db := delete product db in
      match commit pk_col unique_cols env db with
      | (None, db) => (Ok 204 tt, db)
      | (Some _, db) =>
          (HTTPException 500 "Could not delete product", rollback db)
      end
  end.

Definition get_products (q : ListQuery) (db : Session)
    : outcome (list Row) * Session :=
  list_products db (default 0 (q_skip q)) (default 100 (q_limit q)).

End Schema.
End ProductService.

(** ** Startup: conditional schema initialisation *)

(** What the startup hook does that the outside can see. *)
Inductive event : Type :=
  | Attempt (i : nat)          (* Base.metadata.create_all(bind=engine) *)
  | Initialized                (* create_all returned *)
  | Sleep (seconds : Z).       (* time.sleep(seconds) *)

(** How the hook ends: it returns, calls [sys.exit], or lets an exception
    escape. *)
Inductive completion : Type :=
  | Return
  | Exit (code : Z)
  | Raise (e : exn).

Inductive signal : Type :=
  | Continue
  | Break
  | Stop (c : completion).

(** [for i in range(n): body], from index [i] on. *)
Fixpoint for_range (body : nat -> list event * signal) (i n : nat)
    : list event * signal :=
  match n with
  | O => ([], Continue)
  | S n' =>
      match body i with
      | (tr, Continue) =>
          let (tr', c) := for_range body (S i) n' in (tr ++ tr', c)
      | (tr, c) => (tr, c)
      end
  end.

Definition after_loop (r : list event * signal) : list event * completion :=
  match r with
  | (tr, Stop c) => (tr, c)
  | (tr, _) => (tr, Return)
  end.

(** [os.getenv("DISABLE_DB", "false").lower() == "true"] *)
Definition db_disabled (environ : gmap string string) : bool :=
  String.eqb (lower (default "false" (environ !! "DISABLE_DB"))) "true".

(** In each hook [create_all i] is what the [i]-th call of
    [Base.metadata.create_all] raises, [None] when it returns. *)
Module CustomerStartup.

Definition startup_event (environ : gmap string string)
    (create_all : nat -> option exn) : list event * completion :=
  if db_disabled environ then ([], Return)
  else
    let max_retries := 10%nat in
    after_loop (for_range (fun i =>
      match create_all i with
      | None => ([Attempt i; Initialized], Break)
      | Some OperationalError => ([Attempt i; Sleep 5], Continue)
      | Some _ => ([Attempt i], Stop (Exit 1))
      end) 0 max_retries).

End CustomerStartup.

Module OrderStartup.

Definition startup_event (environ : gmap string string)
    (create_all : nat -> option exn) : list event * completion :=
  if db_disabled environ then ([], Return)
  else
    after_loop (for_range (fun i =>
      match create_all i with
      | None => ([Attempt i; Initialized], Break)
      | Some OperationalError => ([Attempt i; Sleep 5], Continue)
      | Some e => ([Attempt i], Stop (Raise e))
      end) 0 10).

End OrderStartup.

Module ProductStartup.

Definition startup_event (environ : gmap string string)
    (create_all : nat -> option exn) : list event * completion :=
  if db_disabled environ then ([], Return)
  else
    after_loop (for_range (fun i =>
      match create_all i with
      | None => ([Attempt i; Initialized], Break)
      | Some OperationalError => ([Attempt i; Sleep 5], Continue)
      | Some e => ([Attempt i], Stop (Raise e))
      end) 0 10).

End ProductStartup.

(** The server around the hook: when the startup hook returns the
    application serves requests; [sys.exit] or an exception escaping the
    hook fails the application startup and the server process exits. *)
Inductive process : Type := Serving | Terminated.

Definition lifespan (c : completion) : process :=
  match c with
  | Return => Serving
  | Exit _ | Raise _ => Terminated
  end.

(** * Properties *)

(** ** Vocabulary of the statements *)

(** No row of the table carries the identifier. *)
Definition absent (pk_col : string) (id : Z) (t : list Row) : Prop :=
  ∀ r, r ∈ t → r !! pk_col ≠ Some (VInt id).

(** The page of a listing: the rows after the first [skip], at most [limit]
    of them, in the order of the table. *)
Definition page (skip limit : Z) (t : list Row) : list Row :=
  take (Z.to_nat limit) (drop (Z.to_nat skip) t).

(** The customers a search text selects, read as a case-insensitive
    substring of the first name, the last name or the email. *)
Definition matches (search : string) (c : Row) : bool :=
  contains_ci (c !! "first_name") search
  || contains_ci (c !! "last_name") search
  || contains_ci (c !! "email") search.

(** Text within ASCII, where the case folding of the database is the
    folding of the letters A to Z. *)
Definition ascii_char (c : ascii) : bool := (N_of_ascii c <? 128)%N.

Fixpoint ascii_text (s : string) : bool :=
  match s with
  | EmptyString => true
  | String c s' => ascii_char c && ascii_text s'
  end.

Definition ascii_column (col : option value) : bool :=
  match col with
  | Some (VStr s) => ascii_text s
  | _ => true
  end.

(** A customer whose first name, last name and email are ASCII text. *)
Definition ascii_customer (c : Row) : bool :=
  ascii_column (c !! "first_name")
  && ascii_column (c !! "last_name")
  && ascii_column (c !! "email").

(** The rows of a table that do not carry the identifier, in order. *)
Definition without (pk_col : string) (id : Z) (t : list Row) : list Row :=
  List.filter (λ r, negb (has_pk pk_col (VInt id) r)) t.

(** No stored row holds the value the new row has in the column, NULL
    apart. *)
Definition free_in (c : string) (obj : Row) (t : list Row) : Prop :=
  ∀ r v, r ∈ t → obj !! c = Some v → v ≠ VNone → r !! c ≠ Some v.

(** The status a storage failure is surfaced with: Conflict for a
    uniqueness violation, InternalError otherwise. *)
Definition failure_status (e : exn) : Z :=
  if decide (e = IntegrityError) then 400 else 500.

(** The non NULL value of a row in a column. *)
Definition key_of (c : string) (r : Row) : option value :=
  match r !! c with
  | None | Some VNone => None
  | Some v => Some v
  end.

(** No two rows of the table hold the same non NULL value in the column. *)
Definition unique_on (c : string) (t : list Row) : Prop :=
  NoDup (omap (key_of c) t).

(** The constraints of the customers table: primary key and email. *)
Definition consistent (t : list Row) : Prop :=
  unique_on CustomerService.pk_col t ∧ unique_on "email" t.

(** A sequence of requests served by the order service, each with what the
    database decides during it. *)
Fixpoint run_orders (unique_cols : list string)
    (reqs : list (Env * OrderService.Request)) (t : list Row) : list Row :=
  match reqs with
  | [] => t
  | (env, req) :: rest =>
      run_orders unique_cols rest (OrderService.serve unique_cols env req t)
  end.

(** The body of the startup loops, by what is done with a failure that is
    not a connectivity failure. *)
Definition attempt_body (on_other : exn → completion)
    (create_all : nat → option exn) (i : nat) : list event * signal :=
  match create_all i with
  | None => ([Attempt i; Initialized], Break)
  | Some OperationalError => ([Attempt i; Sleep 5], Continue)
  | Some e => ([Attempt i], Stop (on_other e))
  end.

(** The attempts [i], ..., [i + k - 1], each followed by the sleep. *)
Definition failed_from (i k : nat) : list event :=
  flat_map (fun j => [Attempt j; Sleep 5]) (seq i k).

Definition is_attempt (ev : event) : bool :=
  match ev with Attempt _ => true | _ => false end.

(** The number of schema creation attempts in a trace. *)
Definition attempts (tr : list event) : nat :=
  List.length (List.filter is_attempt tr).

(** What a mutating handler of the customer and product services leaves on
    an error exit: a missing identifier changes nothing, a failed commit is
    rolled back before the error is raised. *)
Definition rolled_back_on_error {A} (db : Session)
    (res : outcome A * Session) : Prop :=
  match res with
  | (Ok _ _, _) => True
  | (HTTPException code _, db') =>
      (code = 404 ∧ db' = db) ∨ ((code = 400 ∨ code = 500) ∧ db' = rollback db)
  | (Uncaught _, _) => False
  end.

(** The contract of a startup hook, over the environment variables and
    what each call of [create_all] raises. *)
Definition startup_contract
    (startup_event : gmap string string → (nat → option exn)
                     → list event * completion) : Prop :=
  ∀ environ create_all,
    (db_disabled environ = true →
       startup_event environ create_all = ([], Return))
    ∧ (db_disabled environ = false →
       (attempts (fst (startup_event environ create_all)) ≤ 10)%nat
       ∧ ((∀ i, (i < 10)%nat → create_all i = Some OperationalError) →
            startup_event environ create_all = (failed_from 0 10, Return))
       ∧ (∀ k, (k < 10)%nat →
            (∀ i, (i < k)%nat → create_all i = Some OperationalError) →
            (create_all k = None →
               startup_event environ create_all
               = (failed_from 0 k ++ [Attempt k; Initialized], Return))
            ∧ (∀ e, create_all k = Some e → e ≠ OperationalError →
                 fst (startup_event environ create_all)
                 = failed_from 0 k ++ [Attempt k]
                 ∧ lifespan (snd (startup_event environ create_all))
                   = Terminated))).

(** ** Sample data *)

Definition ann : Row :=
  <["customer_id" := VInt 1]>
    (CustomerService.Customer (VStr "a@x.com") (VStr "hash") (VStr "Ann")
       (VStr "Zuberi") VNone VNone).

Definition bob : Row :=
  <["customer_id" := VInt 2]>
    (CustomerService.Customer (VStr "b@x.com") (VStr "hash") (VStr "Bob")
       (VStr "Stone") VNone VNone).

Definition eve_with_anns_email : CustomerService.CustomerCreate :=
  {| CustomerService.email := VStr "a@x.com";
     CustomerService.password := VStr "secret";
     CustomerService.first_name := VStr "Eve";
     CustomerService.last_name := VStr "Moss";
     CustomerService.phone_number := VNone;
     CustomerService.shipping_address := VNone |}.

Definition env_ok : Env := {| fault := None; site := AtCommit; genid := 3 |}.
Definition env_down : Env :=
  {| fault := Some OperationalError; site := AtCommit; genid := 3 |}.
Definition env_clash : Env :=
  {| fault := Some IntegrityError; site := AtCommit; genid := 3 |}.

Definition order_row (id customer : Z) : Row :=
  <["order_id" := VInt id]> (<["customer_id" := VInt customer]> ∅).

Definition five_orders : list Row :=
  [order_row 1 1; order_row 2 1; order_row 3 2; order_row 4 2; order_row 5 1].

Definition product_row (id : Z) (name : string) : Row :=
  <["product_id" := VInt id]> (<["name" := VStr name]> ∅).

Definition two_products : list Row := [product_row 1 "Mug"; product_row 2 "Cup"].

Definition first_two : ListQuery :=
  {| q_skip := Some 0; q_limit := Some 2; q_search := None |}.

Definition search_for (s : string) : ListQuery :=
  {| q_skip := None; q_limit := None; q_search := Some s |}.

(** ** Further vocabulary *)

(** A request to one of the product routes over the table, and the table
    it leaves committed. *)
Inductive ProductRequest : Type :=
  | CreateProduct (product : Row)
  | ListProducts (q : ListQuery)
  | GetProduct (product_id : Z)
  | UpdateProduct (product_id : Z) (product_data : Row)
  | DeleteProduct (product_id : Z).

Definition product_serve (unique_cols : list string) (env : Env)
    (req : ProductRequest) (t : list Row) : list Row :=
  match req with
  | CreateProduct p =>
      table (snd (ProductService.create_product unique_cols env p (session_of t)))
  | ListProducts q => table (snd (ProductService.get_products q (session_of t)))
  | GetProduct id => table (snd (ProductService.get_product id (session_of t)))
  | UpdateProduct id data =>
      table (snd (ProductService.update_product unique_cols env id data
                    (session_of t)))
  | DeleteProduct id =>
      table (snd (ProductService.delete_product unique_cols env id (session_of t)))
  end.

(** The seconds a trace spends sleeping. *)
Fixpoint total_sleep (tr : list event) : Z :=
  match tr with
  | [] => 0
  | Sleep s :: tr' => s + total_sleep tr'
  | _ :: tr' => total_sleep tr'
  end.

(** The customer as [create_customer] stores it under a generated key. *)
Definition stored_customer (env : Env)
    (c : CustomerService.CustomerCreate) : Row :=
  <[CustomerService.pk_col := VInt (genid env)]>
    (CustomerService.Customer
       (CustomerService.email c) (CustomerService.password c)
       (CustomerService.first_name c) (CustomerService.last_name c)
       (CustomerService.phone_number c) (CustomerService.shipping_address c)).

Definition carol : CustomerService.CustomerCreate :=
  {| CustomerService.email := VStr "c@x.com";
     CustomerService.password := VStr "secret";
     CustomerService.first_name := VStr "Carol";
     CustomerService.last_name := VStr "Reed";
     CustomerService.phone_number := VNone;
     CustomerService.shipping_address := VStr "1 Main St" |}.

(** ** The storage layer *)

Section StorageFacts.

Variable pk_col : string.
Variable unique_cols : list string.

Lemma setattrs_union (update_data obj : Row) :
  setattrs update_data obj = update_data ∪ obj.
Proof.
  unfold setattrs.
  apply (map_fold_weak_ind (fun r m => r = m ∪ obj)).
  - by rewrite (left_id_L ∅ (∪)).
  - intros k v m r _ ->. by rewrite insert_union_l.
Qed.

Lemma setattrs_set (update_data obj : Row) k v :
  update_data !! k = Some v → setattrs update_data obj !! k = Some v.
Proof. rewrite setattrs_union. apply lookup_union_Some_l. Qed.

Lemma setattrs_unset (update_data obj : Row) k :
  update_data !! k = None → setattrs update_data obj !! k = obj !! k.
Proof. rewrite setattrs_union. intros H. by rewrite lookup_union_r. Qed.

Lemma setattrs_empty (obj : Row) : setattrs ∅ obj = obj.
Proof. rewrite setattrs_union. by rewrite (left_id_L ∅ (∪)). Qed.

Lemma first_filter_absent id t :
  absent pk_col id t → first (filter_pk pk_col id t) = None.
Proof.
  unfold absent, first, filter_pk. induction t as [|r t IH]; intros H; [done|].
  cbn. unfold has_pk at 1, pk_of.
  rewrite bool_decide_eq_false_2; [|apply H; left].
  apply IH. intros r' Hr'. apply H. by right.
Qed.

Lemma first_filter_present id t :
  ¬ absent pk_col id t → ∃ r, first (filter_pk pk_col id t) = Some r.
Proof.
  intros H. destruct (first (filter_pk pk_col id t)) as [r|] eqn:E; [eauto|].
  exfalso. apply H. intros r Hr Hpk.
  assert (r ∈ filter_pk pk_col id t) as Hin.
  { unfold filter_pk. apply list_elem_of_In, filter_In. split.
    - by apply list_elem_of_In.
    - unfold has_pk, pk_of. by apply bool_decide_eq_true_2. }
  unfold first in E. destruct (filter_pk pk_col id t); [|done].
  by apply not_elem_of_nil in Hin.
Qed.

Lemma first_filter_pk id t r :
  first (filter_pk pk_col id t) = Some r →
  r ∈ t ∧ pk_of pk_col r = Some (VInt id).
Proof.
  unfold first, filter_pk. intros H.
  assert (r ∈ List.filter (has_pk pk_col (VInt id)) t) as Hin.
  { destruct (List.filter _ t); simplify_eq/=. left. }
  apply list_elem_of_In, filter_In in Hin as [Hin Hpk].
  split; [by apply list_elem_of_In|].
  unfold has_pk in Hpk. by apply bool_decide_eq_true_1 in Hpk.
Qed.

Lemma same_pk_has_pk id loaded r :
  pk_of pk_col loaded = Some (VInt id) →
  same_pk pk_col loaded r = has_pk pk_col (VInt id) r.
Proof.
  intros H. unfold same_pk, has_pk. rewrite H.
  apply bool_decide_ext. split; intros E; by rewrite E.
Qed.

Lemma flush_app env ops1 ops2 t :
  flush pk_col unique_cols env (ops1 ++ ops2) t =
  match flush pk_col unique_cols env ops1 t with
  | inl e => inl e
  | inr t' => flush pk_col unique_cols env ops2 t'
  end.
Proof.
  revert t. induction ops1 as [|op ops1 IH]; intros t; [done|].
  cbn. destruct (flush_op _ _ _ _ _); [done|]. apply IH.
Qed.

Lemma filter_not_pk_absent id obj t :
  pk_of pk_col obj = Some (VInt id) →
  absent pk_col id (List.filter (fun r => negb (same_pk pk_col obj r)) t).
Proof.
  intros Hobj r Hr Hpk.
  apply list_elem_of_In, filter_In in Hr as [_ Hr].
  apply negb_true_iff, bool_decide_eq_false_1 in Hr.
  apply Hr. unfold pk_of in *. by rewrite Hobj, Hpk.
Qed.


Lemma fault_at_none env s : fault env = None → fault_at env s = None.
Proof. intros H. unfold fault_at. rewrite H. by destruct (site env), s. Qed.

Lemma fault_at_commit env :
  site env = AtCommit →
  fault_at env AtCommit = fault env ∧ fault_at env AtRefresh = None.
Proof. intros H. unfold fault_at. by rewrite H. Qed.

Lemma commit_fault env e db :
  fault env = Some e → site env = AtCommit →
  commit pk_col unique_cols env db = (Some e, rollback db).
Proof.
  intros H Hs. unfold commit.
  destruct (fault_at_commit env Hs) as [-> _]. by rewrite H.
Qed.

(** A failed commit leaves the committed rows and no unit of work. *)
Lemma commit_failed env e db db' :
  commit pk_col unique_cols env db = (Some e, db') → db' = rollback db.
Proof.
  unfold commit. destruct (fault_at env AtCommit); [congruence|].
  destruct (flush _ _ _ _ _); congruence.
Qed.

Lemma commit_flushes env db :
  fault_at env AtCommit = None →
  commit pk_col unique_cols env db
  = match flush pk_col unique_cols env (pending db) (table db) with
    | inl e => (Some e, rollback db)
    | inr t' => (None, {| table := t'; pending := [] |})
    end.
Proof. intros H. unfold commit. by rewrite H. Qed.

Lemma commit_refresh_snd env obj db :
  snd (commit_refresh pk_col unique_cols env obj db)
  = snd (commit pk_col unique_cols env db).
Proof.
  unfold commit_refresh. by destruct (commit _ _ _ _) as [[e|] db'].
Qed.

(** The refreshed object is the row found after a commit that went
    through. *)
Lemma commit_refresh_inr env obj db row db' :
  commit_refresh pk_col unique_cols env obj db = (inr row, db') →
  commit pk_col unique_cols env db = (None, db')
  ∧ row = reload pk_col obj db'.
Proof.
  unfold commit_refresh, refresh.
  destruct (commit _ _ _ _) as [[e|] db1]; [done|].
  destruct (fault_at env AtRefresh); [done|]. by intros [= <- <-].
Qed.

(** What is raised is raised by the commit, which then changed nothing, or
    by the refresh, after the commit. *)
Lemma commit_refresh_inl env obj db e db' :
  commit_refresh pk_col unique_cols env obj db = (inl e, db') →
  (commit pk_col unique_cols env db = (Some e, db') ∧ db' = rollback db)
  ∨ (commit pk_col unique_cols env db = (None, db')
     ∧ fault_at env AtRefresh = Some e).
Proof.
  unfold commit_refresh, refresh.
  destruct (commit _ _ _ _) as [[e1|] db1] eqn:Hc.
  - intros [= <- <-]. left. split; [done|]. by eapply commit_failed.
  - destruct (fault_at env AtRefresh) as [e2|]; [|done].
    intros [= <- <-]. by right.
Qed.

Lemma commit_refresh_ok env obj db db' :
  fault_at env AtRefresh = None →
  commit pk_col unique_cols env db = (None, db') →
  commit_refresh pk_col unique_cols env obj db
  = (inr (reload pk_col obj db'), db').
Proof. intros Hf Hc. unfold commit_refresh, refresh. by rewrite Hc, Hf. Qed.

Lemma commit_refresh_fault env e obj db :
  fault env = Some e → site env = AtCommit →
  commit_refresh pk_col unique_cols env obj db = (inl e, rollback db).
Proof.
  intros H Hs. unfold commit_refresh. by rewrite (commit_fault env e).
Qed.

Lemma elem_of_without id (r : Row) t :
  r ∈ without pk_col id t ↔ r ∈ t ∧ r !! pk_col ≠ Some (VInt id).
Proof.
  unfold without. rewrite list_elem_of_In, filter_In, <- list_elem_of_In.
  unfold has_pk, pk_of. rewrite negb_true_iff, bool_decide_eq_false. done.
Qed.

Lemma absent_without id t : absent pk_col id (without pk_col id t).
Proof. intros r Hr. by apply elem_of_without in Hr as [_ ?]. Qed.

Lemma filter_pk_absent id t :
  absent pk_col id t → filter_pk pk_col id t = [].
Proof.
  intros H%first_filter_absent. unfold first in H.
  by destruct (filter_pk pk_col id t).
Qed.

Lemma without_absent id t : absent pk_col id t → without pk_col id t = t.
Proof.
  intros H. unfold without. induction t as [|r t IH]; [done|]. cbn.
  unfold has_pk at 1, pk_of. rewrite bool_decide_eq_false_2 by (apply H; left).
  cbn. f_equal. apply IH. intros r' Hr'. apply H. by right.
Qed.

Lemma others_without id (loaded : Row) t :
  pk_of pk_col loaded = Some (VInt id) →
  List.filter (λ r, negb (same_pk pk_col loaded r)) t = without pk_col id t.
Proof.
  intros H. unfold without. apply filter_ext. intros r.
  by rewrite (same_pk_has_pk id).
Qed.

Lemma reload_filter_pk id (obj : Row) db :
  pk_of pk_col obj = Some (VInt id) →
  reload pk_col obj db = default obj (first (filter_pk pk_col id (table db))).
Proof.
  intros H. unfold reload, first, filter_pk. do 2 f_equal.
  apply filter_ext. intros r. by apply same_pk_has_pk.
Qed.

End StorageFacts.

(** ** Missing identifiers *)

Section NotFound.

Variable unique_cols : list string.
Variable env : Env.
Variable id : Z.

Lemma customer_absent db data :
  absent CustomerService.pk_col id (table db) →
  CustomerService.get_customer id db
    = (HTTPException 404 "Customer not found", db)
  ∧ CustomerService.update_customer env id data db
    = (HTTPException 404 "Customer not found", db)
  ∧ CustomerService.delete_customer env id db
    = (HTTPException 404 "Customer not found", db).
Proof.
  intros H. apply first_filter_absent in H.
  unfold CustomerService.get_customer, CustomerService.update_customer,
    CustomerService.delete_customer, query. by rewrite H.
Qed.

Lemma order_absent db :
  absent OrderService.pk_col id (table db) →
  OrderService.get_order id db = (HTTPException 404 "Order not found", db)
  ∧ OrderService.delete_order unique_cols env id db
    = (HTTPException 404 "Order not found", db).
Proof.
  intros H. apply first_filter_absent in H.
  unfold OrderService.get_order, OrderService.delete_order, query.
  by rewrite H.
Qed.

Lemma product_absent db data :
  absent ProductService.pk_col id (table db) →
  ProductService.get_product id db
    = (HTTPException 404 "Product not found", db)
  ∧ ProductService.update_product unique_cols env id data db
    = (HTTPException 404 "Product not found", db)
  ∧ ProductService.delete_product unique_cols env id db
    = (HTTPException 404 "Product not found", db).
Proof.
  intros H. apply first_filter_absent in H.
  unfold ProductService.get_product, ProductService.update_product,
    ProductService.delete_product, query. by rewrite H.
Qed.

(** A committed DELETE leaves no row under the identifier. *)
Lemma commit_delete pk_col ucols obj t :
  fault env = None →
  commit pk_col ucols env (delete obj (session_of t))
  = (None, session_of (List.filter (fun r => negb (same_pk pk_col obj r)) t)).
Proof.
  intros H. by rewrite commit_flushes by (by apply fault_at_none).
Qed.

Lemma customer_delete_then_get t :
  fault env = None → ¬ absent CustomerService.pk_col id t →
  ∃ t', CustomerService.delete_customer env id (session_of t)
          = (Ok 204 tt, session_of t')
      ∧ CustomerService.get_customer id (session_of t')
          = (HTTPException 404 "Customer not found", session_of t').
Proof.
  intros Hf [r Hr]%first_filter_present.
  destruct (first_filter_pk _ _ _ _ Hr) as [_ Hpk].
  eexists. unfold CustomerService.delete_customer, query. cbn [table session_of].
  rewrite Hr, commit_delete by done. split; [done|].
  by eapply customer_absent, filter_not_pk_absent.
Qed.

Lemma order_delete_then_get t :
  fault env = None → ¬ absent OrderService.pk_col id t →
  ∃ t', OrderService.delete_order unique_cols env id (session_of t)
          = (Ok 204 tt, session_of t')
      ∧ OrderService.get_order id (session_of t')
          = (HTTPException 404 "Order not found", session_of t').
Proof.
  intros Hf [r Hr]%first_filter_present.
  destruct (first_filter_pk _ _ _ _ Hr) as [_ Hpk].
  eexists. unfold OrderService.delete_order, query. cbn [table session_of].
  rewrite Hr, commit_delete by done. split; [done|].
  by eapply order_absent, filter_not_pk_absent.
Qed.

Lemma product_delete_then_get t :
  fault env = None → ¬ absent ProductService.pk_col id t →
  ∃ t', ProductService.delete_product unique_cols env id (session_of t)
          = (Ok 204 tt, session_of t')
      ∧ ProductService.get_product id (session_of t')
          = (HTTPException 404 "Product not found", session_of t').
Proof.
  intros Hf [r Hr]%first_filter_present.
  destruct (first_filter_pk _ _ _ _ Hr) as [_ Hpk].
  eexists. unfold ProductService.delete_product, query. cbn [table session_of].
  rewrite Hr, commit_delete by done. split; [done|].
  eapply (product_absent _ ∅), filter_not_pk_absent. done.
Qed.

End NotFound.

(** ** Partial updates *)

Section UpdateFacts.

Variable pk_col : string.
Variable unique_cols : list string.

(** What a committed update leaves behind. *)
Lemma commit_modified_ok env id (data : Row) t loaded db' :
  first (filter_pk pk_col id t) = Some loaded →
  data !! pk_col = None →
  commit pk_col unique_cols env
    (modified loaded (setattrs data loaded) (session_of t)) = (None, db') →
  let body := setattrs data loaded in
  reload pk_col body db' = body
  ∧ pending db' = []
  ∧ first (filter_pk pk_col id (table db')) = Some body
  ∧ without pk_col id (table db') = without pk_col id t.
Proof.
  intros Hfirst Hdata Hcommit body.
  destruct (first_filter_pk _ _ _ _ Hfirst) as [Hin Hpk].
  assert (pk_of pk_col body = Some (VInt id)) as Hbody.
  { unfold pk_of, body. rewrite setattrs_unset by done. exact Hpk. }
  assert (first (filter_pk pk_col id (table db')) = Some body
          ∧ pending db' = []
          ∧ without pk_col id (table db') = without pk_col id t)
    as (Hget & Hpending & Hothers).
  { unfold commit, modified in Hcommit.
    destruct (fault_at env AtCommit); [done|].
    cbn [pending table session_of app flush flush_op] in Hcommit.
    fold body in Hcommit.
    destruct (decide (loaded = body)) as [Heq|Hne].
    - injection Hcommit as <-. cbn [table pending]. by rewrite <- Heq.
    - rewrite (others_without pk_col id) in Hcommit by done.
      match type of Hcommit with
      | context [if ?b then inl IntegrityError else _] => destruct b
      end; [done|].
      injection Hcommit as <-. cbn [table pending].
      split; [|split; [done|]].
      + unfold filter_pk. rewrite List.filter_app.
        fold (filter_pk pk_col id (without pk_col id t)).
        rewrite filter_pk_absent by apply absent_without.
        cbn. unfold has_pk. by rewrite bool_decide_eq_true_2.
      + unfold without at 1. rewrite List.filter_app.
        fold (without pk_col id (without pk_col id t)).
        rewrite without_absent by apply absent_without.
        cbn. unfold has_pk. rewrite bool_decide_eq_true_2 by done.
        by rewrite app_nil_r. }
  split; [|done].
  rewrite (reload_filter_pk pk_col id) by done. by rewrite Hget.
Qed.

(** A storage that does not fail commits an update that collides with no
    other row. *)
Lemma commit_modified_success env (loaded current : Row) t :
  fault env = None →
  violates (List.filter (changed loaded current) (pk_col :: unique_cols))
           (List.filter (fun r => negb (same_pk pk_col loaded r)) t) current
  = false →
  ∃ db', commit pk_col unique_cols env
           (modified loaded current (session_of t)) = (None, db').
Proof.
  intros Hf Hv. rewrite commit_flushes by (by apply fault_at_none).
  unfold modified. cbn [pending table session_of app flush flush_op].
  destruct (decide _); [eauto|]. rewrite Hv. eauto.
Qed.

Lemma violates_false cols t (obj : Row) :
  (∀ c r, c ∈ cols → r ∈ t → clash c obj r = false) →
  violates cols t obj = false.
Proof.
  intros H. destruct (violates cols t obj) eqn:E; [|done].
  unfold violates in E. apply existsb_exists in E as (c & Hc & E).
  apply existsb_exists in E as (r & Hr & E).
  rewrite H in E; [done| |]; by apply list_elem_of_In.
Qed.

Lemma clash_free c (obj r : Row) t :
  free_in c obj t → r ∈ t → clash c obj r = false.
Proof.
  intros Hfree Hr. unfold clash.
  destruct (obj !! c) as [va|] eqn:Ha; [|done].
  destruct (r !! c) as [vb|] eqn:Hb; [|by destruct va].
  destruct va; try done; apply bool_decide_eq_false_2; intros <-;
    by eapply (Hfree r).
Qed.

(** An update that leaves the key alone and moves the unique columns only
    to values no other row holds is committed by a storage that does not
    fail. *)
Lemma commit_update_free env id (data loaded : Row) t :
  fault env = None →
  pk_of pk_col loaded = Some (VInt id) →
  data !! pk_col = None →
  (∀ c, c ∈ unique_cols → free_in c data (without pk_col id t)) →
  ∃ db', commit pk_col unique_cols env
           (modified loaded (setattrs data loaded) (session_of t)) = (None, db').
Proof.
  intros Hf Hpk Hdata Hfree. apply commit_modified_success; [done|].
  rewrite (others_without pk_col id) by done.
  apply violates_false. intros c r Hc Hr.
  apply list_elem_of_In, filter_In in Hc as [Hc Hch].
  apply list_elem_of_In in Hc.
  unfold changed in Hch. apply bool_decide_eq_true_1 in Hch.
  destruct (data !! c) as [v|] eqn:Hdc.
  - apply elem_of_cons in Hc as [->|Hc]; [congruence|].
    apply (clash_free c _ r (without pk_col id t)); [|done].
    intros r' v' Hr' Hv' Hne. rewrite (setattrs_set _ _ _ v) in Hv' by done.
    injection Hv' as <-. by eapply Hfree.
  - by rewrite setattrs_unset in Hch.
Qed.

End UpdateFacts.

Lemma customer_update_committed env id (data : Row) t code body db' :
  data !! CustomerService.pk_col = None →
  CustomerService.update_customer env id data (session_of t)
    = (Ok code body, db') →
  code = 200
  ∧ ∃ loaded,
      CustomerService.get_customer id (session_of t)
        = (Ok 200 loaded, session_of t)
      ∧ (∀ k v, data !! k = Some v → body !! k = Some v)
      ∧ (∀ k, data !! k = None → body !! k = loaded !! k)
      ∧ CustomerService.get_customer id db' = (Ok 200 body, db')
      ∧ without CustomerService.pk_col id (table db')
        = without CustomerService.pk_col id t.
Proof.
  intros Hdata. unfold CustomerService.update_customer, CustomerService.get_customer, query.
  cbn [table session_of].
  destruct (first (filter_pk _ id t)) as [loaded|] eqn:Hfirst; [|done].
  destruct (commit_refresh _ _ _ _ _) as [[e|row] db1] eqn:Hcr.
  { destruct e; done. }
  apply commit_refresh_inr in Hcr as [Hcommit ->].
  intros [= <- <- <-].
  destruct (commit_modified_ok _ _ _ _ _ _ _ _ Hfirst Hdata Hcommit)
    as (Hrefresh & _ & Hget & Hothers).
  split; [done|]. exists loaded. rewrite Hrefresh, Hget.
  repeat split; try done.
  - intros k v. apply setattrs_set.
  - intros k. apply setattrs_unset.
Qed.

Lemma product_update_committed ucols env id (data : Row) t code body db' :
  data !! ProductService.pk_col = None →
  ProductService.update_product ucols env id data (session_of t)
    = (Ok code body, db') →
  code = 200
  ∧ ∃ loaded,
      ProductService.get_product id (session_of t)
        = (Ok 200 loaded, session_of t)
      ∧ (∀ k v, data !! k = Some v → body !! k = Some v)
      ∧ (∀ k, data !! k = None → body !! k = loaded !! k)
      ∧ ProductService.get_product id db' = (Ok 200 body, db')
      ∧ without ProductService.pk_col id (table db')
        = without ProductService.pk_col id t.
Proof.
  intros Hdata. unfold ProductService.update_product, ProductService.get_product, query.
  cbn [table session_of].
  destruct (first (filter_pk _ id t)) as [loaded|] eqn:Hfirst; [|done].
  destruct (commit_refresh _ _ _ _ _) as [[e|row] db1] eqn:Hcr; [done|].
  apply commit_refresh_inr in Hcr as [Hcommit ->].
  intros [= <- <- <-].
  destruct (commit_modified_ok _ _ _ _ _ _ _ _ Hfirst Hdata Hcommit)
    as (Hrefresh & _ & Hget & Hothers).
  split; [done|]. exists loaded. rewrite Hrefresh, Hget.
  repeat split; try done.
  - intros k v. apply setattrs_set.
  - intros k. apply setattrs_unset.
Qed.

(** An update that moves the email only to a value no other customer
    holds is committed by a storage that does not fail, and answers the
    stored customer overridden by the partial input. *)
Lemma customer_update_free env id (data : Row) t loaded :
  fault env = None →
  CustomerService.get_customer id (session_of t)
    = (Ok 200 loaded, session_of t) →
  data !! CustomerService.pk_col = None →
  free_in "email" data (without CustomerService.pk_col id t) →
  ∃ db', CustomerService.update_customer env id data (session_of t)
         = (Ok 200 (data ∪ loaded), db').
Proof.
  intros Hf. unfold CustomerService.get_customer, query. cbn [table session_of].
  destruct (first (filter_pk _ id t)) as [loaded'|] eqn:Hfirst; [|done].
  intros [= ->] Hpk Hemail.
  destruct (first_filter_pk _ _ _ _ Hfirst) as [_ Hloaded].
  destruct (commit_update_free CustomerService.pk_col
              CustomerService.unique_cols env id data loaded t Hf Hloaded Hpk)
    as [db' Hcommit].
  { intros c Hc. by apply list_elem_of_singleton in Hc as ->. }
  destruct (commit_modified_ok _ _ _ _ _ _ _ _ Hfirst Hpk Hcommit)
    as (Hrefresh & _).
  exists db'. unfold CustomerService.update_customer, query.
  cbn [table session_of]. rewrite Hfirst.
  rewrite (commit_refresh_ok _ _ _ _ _ db') by (done || by apply fault_at_none).
  by rewrite Hrefresh, setattrs_union.
Qed.

Lemma product_update_free ucols env id (data : Row) t loaded :
  fault env = None →
  ProductService.get_product id (session_of t)
    = (Ok 200 loaded, session_of t) →
  data !! ProductService.pk_col = None →
  (∀ c, c ∈ ucols → free_in c data (without ProductService.pk_col id t)) →
  ∃ db', ProductService.update_product ucols env id data (session_of t)
         = (Ok 200 (data ∪ loaded), db').
Proof.
  intros Hf. unfold ProductService.get_product, query. cbn [table session_of].
  destruct (first (filter_pk _ id t)) as [loaded'|] eqn:Hfirst; [|done].
  intros [= ->] Hpk Hfree.
  destruct (first_filter_pk _ _ _ _ Hfirst) as [_ Hloaded].
  destruct (commit_update_free ProductService.pk_col ucols env id data loaded
              t Hf Hloaded Hpk Hfree) as [db' Hcommit].
  destruct (commit_modified_ok _ _ _ _ _ _ _ _ Hfirst Hpk Hcommit)
    as (Hrefresh & _).
  exists db'. unfold ProductService.update_product, query.
  cbn [table session_of]. rewrite Hfirst.
  rewrite (commit_refresh_ok _ _ _ _ _ db') by (done || by apply fault_at_none).
  by rewrite Hrefresh, setattrs_union.
Qed.

Lemma free_in_unset c (data : Row) t : data !! c = None → free_in c data t.
Proof. intros H r v _ Hv. congruence. Qed.

(** Setting only [first_name] is always committed by a storage that does
    not fail, and every other attribute keeps its value. *)
Lemma customer_update_first_name env id x t loaded :
  fault env = None →
  CustomerService.get_customer id (session_of t)
    = (Ok 200 loaded, session_of t) →
  ∃ body db',
    CustomerService.update_customer env id {["first_name" := x]} (session_of t)
      = (Ok 200 body, db')
    ∧ body = <["first_name" := x]> loaded
    ∧ body !! "email" = loaded !! "email"
    ∧ body !! "last_name" = loaded !! "last_name"
    ∧ body !! "phone_number" = loaded !! "phone_number"
    ∧ body !! "shipping_address" = loaded !! "shipping_address".
Proof.
  intros Hf Hget.
  destruct (customer_update_free env id {["first_name" := x]} t loaded Hf Hget)
    as [db' Hupd]; [done | by apply free_in_unset |].
  exists ({["first_name" := x]} ∪ loaded), db'. split; [done|].
  rewrite <- insert_union_singleton_l.
  repeat split; by apply lookup_insert_ne.
Qed.

(** ** The empty update *)

Lemma commit_unmodified pk_col ucols env (loaded : Row) t :
  fault env = None →
  commit pk_col ucols env (modified loaded loaded (session_of t))
  = (None, session_of t).
Proof.
  intros Hf. rewrite commit_flushes by (by apply fault_at_none).
  unfold modified. cbn [pending table session_of app flush flush_op].
  by rewrite decide_True.
Qed.

Lemma reload_loaded pk_col id (loaded : Row) t :
  first (filter_pk pk_col id t) = Some loaded →
  reload pk_col loaded (session_of t) = loaded.
Proof.
  intros Hfirst. destruct (first_filter_pk _ _ _ _ Hfirst) as [_ Hpk].
  rewrite (reload_filter_pk pk_col id) by done.
  cbn [table session_of]. by rewrite Hfirst.
Qed.

Lemma customer_update_empty env id t loaded :
  fault env = None →
  CustomerService.get_customer id (session_of t)
    = (Ok 200 loaded, session_of t) →
  CustomerService.update_customer env id ∅ (session_of t)
    = (Ok 200 loaded, session_of t).
Proof.
  intros Hf. unfold CustomerService.get_customer, CustomerService.update_customer, query.
  cbn [table session_of].
  destruct (first (filter_pk _ id t)) as [r|] eqn:Hfirst; [|done].
  intros [= ->]. rewrite setattrs_empty.
  rewrite (commit_refresh_ok _ _ _ _ _ (session_of t))
    by (by apply fault_at_none || by apply commit_unmodified).
  by rewrite (reload_loaded _ id).
Qed.

Lemma product_update_empty ucols env id t loaded :
  fault env = None →
  ProductService.get_product id (session_of t)
    = (Ok 200 loaded, session_of t) →
  ProductService.update_product ucols env id ∅ (session_of t)
    = (Ok 200 loaded, session_of t).
Proof.
  intros Hf. unfold ProductService.get_product, ProductService.update_product, query.
  cbn [table session_of].
  destruct (first (filter_pk _ id t)) as [r|] eqn:Hfirst; [|done].
  intros [= ->]. rewrite setattrs_empty.
  rewrite (commit_refresh_ok _ _ _ _ _ (session_of t))
    by (by apply fault_at_none || by apply commit_unmodified).
  by rewrite (reload_loaded _ id).
Qed.
(** ** Listings *)

Lemma row_count_true n : 0 ≤ n < 2 ^ 63 → row_count n = true.
Proof. intros H. unfold row_count. apply andb_true_iff. lia. Qed.

Lemma window_page skip limit t :
  0 ≤ skip < 2 ^ 63 → 0 ≤ limit < 2 ^ 63 →
  all (query_limit limit (query_offset skip (inr t)))
  = Ok 200 (page skip limit t).
Proof.
  intros Hs Hl. unfold query_offset, query_limit, all, page.
  by rewrite !row_count_true.
Qed.

Lemma page_length skip limit t :
  0 ≤ limit → (Z.of_nat (List.length (page skip limit t)) ≤ limit).
Proof. intros H. unfold page. rewrite length_take. lia. Qed.

Lemma page_lookup skip limit t (i : nat) :
  0 ≤ skip → (Z.of_nat i < limit) →
  page skip limit t !! i = t !! (Z.to_nat skip + i)%nat.
Proof.
  intros Hs Hi. unfold page.
  rewrite lookup_take_lt by lia. by rewrite lookup_drop.
Qed.

Lemma customers_page q t :
  q_search q = None →
  0 ≤ default 0 (q_skip q) < 2 ^ 63 → 0 ≤ default 100 (q_limit q) < 2 ^ 63 →
  CustomerService.get_customers q (session_of t)
  = (Ok 200 (page (default 0 (q_skip q)) (default 100 (q_limit q)) t),
     session_of t).
Proof.
  intros Hq Hs Hl. unfold CustomerService.get_customers,
    CustomerService.list_customers, query. rewrite Hq.
  cbn [table session_of]. by rewrite window_page.
Qed.

Lemma products_page q t :
  0 ≤ default 0 (q_skip q) < 2 ^ 63 → 0 ≤ default 100 (q_limit q) < 2 ^ 63 →
  ProductService.get_products q (session_of t)
  = (Ok 200 (page (default 0 (q_skip q)) (default 100 (q_limit q)) t),
     session_of t).
Proof.
  intros Hs Hl. unfold ProductService.get_products,
    ProductService.list_products, query.
  cbn [table session_of]. by rewrite window_page.
Qed.

Lemma orders_all q t :
  OrderService.get_orders q (session_of t) = (Ok 200 t, session_of t).
Proof. done. Qed.

(** ** LIKE patterns and substrings *)

Lemma like_percent_step p s :
  like (String "%" p) s
  = like p s
    || match s with
       | EmptyString => false
       | String _ s' => like (String "%" p) s'
       end.
Proof. by destruct s. Qed.

Lemma like_percent_all s : like "%" s = true.
Proof.
  induction s as [|c s IH]; [done|].
  rewrite like_percent_step, IH. apply orb_true_r.
Qed.

Lemma plain_char_eqb c :
  plain_char c = true →
  Ascii.eqb c "%" = false ∧ Ascii.eqb c "_" = false ∧ Ascii.eqb c "\" = false.
Proof.
  unfold plain_char. intros H. apply negb_true_iff in H.
  apply orb_false_iff in H as [H ?]. by apply orb_false_iff in H as [? ?].
Qed.

Lemma like_plain_prefix x s :
  plain x = true → like (x ++ "%")%string s = starts_with x s.
Proof.
  revert s. induction x as [|c x IH]; intros s Hx.
  - cbn [String.append]. rewrite like_percent_all. by destruct s.
  - cbn [plain] in Hx. apply andb_true_iff in Hx as [Hc Hx].
    destruct (plain_char_eqb c Hc) as (Hp & Hu & Hb).
    simpl. rewrite Hp, Hu, Hb.
    destruct s as [|d s]; [done|]. by rewrite IH.
Qed.

Lemma like_plain_infix x s :
  plain x = true → like ("%" ++ x ++ "%")%string s = contains x s.
Proof.
  intros Hx. change ("%" ++ x ++ "%")%string with (String "%" (x ++ "%")).
  induction s as [|c s IH].
  - rewrite like_percent_step. cbn [contains]. by rewrite like_plain_prefix.
  - rewrite like_percent_step. cbn [contains].
    by rewrite like_plain_prefix, IH.
Qed.

Lemma append_cons c a b : (String c a ++ b)%string = String c (a ++ b).
Proof. done. Qed.

Lemma lower_app a b : lower (a ++ b)%string = (lower a ++ lower b)%string.
Proof.
  induction a as [|c a IH]; [done|].
  rewrite append_cons. cbn [lower]. by rewrite IH, append_cons.
Qed.

Lemma lower_ascii_plain c : plain_char (lower_ascii c) = plain_char c.
Proof.
  destruct c as [[] [] [] [] [] [] [] []]; reflexivity.
Qed.

Lemma lower_plain x : plain (lower x) = plain x.
Proof.
  induction x as [|c x IH]; [done|]. cbn. by rewrite lower_ascii_plain, IH.
Qed.

Lemma starts_with_spec x s :
  starts_with x s = true ↔ ∃ b, s = (x ++ b)%string.
Proof.
  revert s. induction x as [|c x IH]; intros s.
  - cbn. split; eauto.
  - destruct s as [|d s]; cbn.
    + split; [done|]. by intros [b Hb].
    + rewrite andb_true_iff, IH. split.
      * intros [->%Ascii.eqb_eq [b ->]]. by exists b.
      * intros [b [= -> ->]]. split; [apply Ascii.eqb_refl|eauto].
Qed.

(** [contains] is the substring relation. *)
Lemma contains_spec x s :
  contains x s = true ↔ ∃ a b, s = (a ++ x ++ b)%string.
Proof.
  induction s as [|c s IH]; cbn [contains].
  - rewrite orb_false_r, starts_with_spec. split.
    + intros [b ->]. by exists EmptyString, b.
    + intros (a & b & H). destruct a; [by exists b|done].
  - rewrite orb_true_iff, starts_with_spec, IH. split.
    + intros [[b ->]|(a & b & ->)].
      * by exists EmptyString, b.
      * by exists (String c a), b.
    + intros (a & b & H). destruct a as [|d a].
      * left. by exists b.
      * right. injection H as -> ->. by exists a, b.
Qed.

(** On a search text without metacharacters the ILIKE filter is the
    case-insensitive substring test. *)
Lemma ilike_plain col search :
  plain search = true →
  ilike col ("%" ++ search ++ "%")%string = contains_ci col search.
Proof.
  intros Hs. unfold ilike, contains_ci.
  destruct col as [[]|]; try done.
  rewrite !lower_app. change (lower "%") with "%".
  apply like_plain_infix. by rewrite lower_plain.
Qed.

Lemma customers_search q t s :
  q_search q = Some s → s ≠ "" → plain s = true →
  0 ≤ default 0 (q_skip q) < 2 ^ 63 → 0 ≤ default 100 (q_limit q) < 2 ^ 63 →
  CustomerService.get_customers q (session_of t)
  = (Ok 200 (page (default 0 (q_skip q)) (default 100 (q_limit q))
               (List.filter (matches s) t)),
     session_of t).
Proof.
  intros Hq Hne Hplain Hs Hl.
  unfold CustomerService.get_customers, CustomerService.list_customers, query.
  rewrite Hq. cbn [table session_of].
  destruct s as [|c s]; [done|].
  rewrite window_page by done. do 3 f_equal.
  apply filter_ext. intros r. unfold matches.
  by rewrite !ilike_plain.
Qed.

Lemma customers_search_empty q t :
  q_search q = Some "" →
  0 ≤ default 0 (q_skip q) < 2 ^ 63 → 0 ≤ default 100 (q_limit q) < 2 ^ 63 →
  CustomerService.get_customers q (session_of t)
  = (Ok 200 (page (default 0 (q_skip q)) (default 100 (q_limit q)) t),
     session_of t).
Proof.
  intros Hq Hs Hl.
  unfold CustomerService.get_customers, CustomerService.list_customers, query.
  rewrite Hq. cbn [table session_of]. by rewrite window_page.
Qed.

(** ** Storage failures at commit *)


(** ** Storage failures at commit *)

Lemma rollback_add obj db : rollback (add obj db) = rollback db.
Proof. done. Qed.

Lemma rollback_modified loaded current db :
  rollback (modified loaded current db) = rollback db.
Proof. done. Qed.

Lemma rollback_delete obj db : rollback (delete obj db) = rollback db.
Proof. done. Qed.

Lemma failure_status_integrity : failure_status IntegrityError = 400.
Proof. done. Qed.

Lemma failure_status_other e : e ≠ IntegrityError → failure_status e = 500.
Proof. intros H. unfold failure_status. by rewrite decide_False. Qed.

Section FaultAtCommit.

Variable unique_cols : list string.
Variable env : Env.
Variable e : exn.
Hypothesis Hfault : fault env = Some e.
Hypothesis Hsite : site env = AtCommit.

Lemma customer_create_fault c db :
  ∃ detail,
    CustomerService.create_customer env c db
    = (HTTPException (failure_status e) detail, rollback db).
Proof.
  unfold CustomerService.create_customer.
  rewrite (commit_refresh_fault _ _ _ e) by done.
  destruct e; eauto.
Qed.

Lemma customer_update_fault id data db :
  ¬ absent CustomerService.pk_col id (table db) →
  ∃ detail,
    CustomerService.update_customer env id data db
    = (HTTPException (failure_status e) detail, rollback db).
Proof.
  intros [loaded Hl]%first_filter_present.
  unfold CustomerService.update_customer, query. rewrite Hl.
  rewrite (commit_refresh_fault _ _ _ e) by done.
  destruct e; eauto.
Qed.

Lemma customer_delete_fault id db :
  ¬ absent CustomerService.pk_col id (table db) →
  CustomerService.delete_customer env id db
  = (HTTPException 500 "Could not delete customer", rollback db).
Proof.
  intros [loaded Hl]%first_filter_present.
  unfold CustomerService.delete_customer, query. rewrite Hl.
  by rewrite (commit_fault _ _ _ e).
Qed.

Lemma product_create_fault p db :
  ∃ detail,
    ProductService.create_product unique_cols env p db
    = (HTTPException (failure_status e) detail, rollback db).
Proof.
  unfold ProductService.create_product.
  rewrite (commit_refresh_fault _ _ _ e) by done.
  destruct e; eauto.
Qed.

Lemma product_update_fault id data db :
  ¬ absent ProductService.pk_col id (table db) →
  ProductService.update_product unique_cols env id data db
  = (HTTPException 500 "Could not update product", rollback db).
Proof.
  intros [loaded Hl]%first_filter_present.
  unfold ProductService.update_product, query. rewrite Hl.
  by rewrite (commit_refresh_fault _ _ _ e).
Qed.

Lemma product_delete_fault id db :
  ¬ absent ProductService.pk_col id (table db) →
  ProductService.delete_product unique_cols env id db
  = (HTTPException 500 "Could not delete product", rollback db).
Proof.
  intros [loaded Hl]%first_filter_present.
  unfold ProductService.delete_product, query. rewrite Hl.
  by rewrite (commit_fault _ _ _ e).
Qed.

(** The order handlers have no [try]: the failure leaves the handler as
    it was raised. *)
Lemma order_create_fault order db :
  OrderService.create_order unique_cols env order db
  = (Uncaught e, rollback db).
Proof.
  unfold OrderService.create_order.
  by rewrite (commit_refresh_fault _ _ _ e).
Qed.

Lemma order_delete_fault id db :
  ¬ absent OrderService.pk_col id (table db) →
  OrderService.delete_order unique_cols env id db = (Uncaught e, rollback db).
Proof.
  intros [order Hl]%first_filter_present.
  unfold OrderService.delete_order, query in *. rewrite Hl.
  by rewrite (commit_fault _ _ _ e).
Qed.

End FaultAtCommit.

(** ** Uniqueness constraints *)

Lemma clash_key c (a b : Row) :
  clash c a b = true ↔ ∃ v, key_of c a = Some v ∧ key_of c b = Some v.
Proof.
  unfold clash, key_of.
  destruct (a !! c) as [va|], (b !! c) as [vb|];
    try (split; [done|by intros (v & ? & ?)]).
  - destruct va; try (rewrite bool_decide_eq_true; split;
      [intros <-; eauto|intros (v & [= <-] & H); by destruct vb; simplify_eq]).
    split; [done|by intros (v & ? & ?)].
  - destruct va; split; try done; by intros (v & ? & ?).
Qed.

(** A column value is free when it collides with no row. *)
Lemma free_in_check c (obj : Row) t :
  existsb (clash c obj) t = false → free_in c obj t.
Proof.
  intros Hex r v Hr Hv Hne Hrv.
  assert (existsb (clash c obj) t = true) as Habs; [|congruence].
  apply existsb_exists. exists r. split; [by apply list_elem_of_In|].
  apply clash_key. exists v. unfold key_of. rewrite Hv, Hrv. by destruct v.
Qed.

Lemma no_clash_fresh c (obj : Row) t v :
  existsb (clash c obj) t = false → key_of c obj = Some v →
  v ∉ omap (key_of c) t.
Proof.
  intros Hex Hv Hin. apply list_elem_of_omap in Hin as (r & Hr & Hk).
  assert (existsb (clash c obj) t = true) as Habs; [|congruence].
  apply existsb_exists. exists r. split; [by apply list_elem_of_In|].
  apply clash_key. eauto.
Qed.

Lemma violates_col cols others (obj : Row) c :
  violates cols others obj = false → c ∈ cols →
  existsb (clash c obj) others = false.
Proof.
  unfold violates. intros Hv Hc.
  destruct (existsb (clash c obj) others) eqn:E; [|done].
  assert (existsb (λ c, existsb (clash c obj) others) cols = true) as Habs;
    [|congruence].
  apply existsb_exists. exists c. split; [by apply list_elem_of_In|done].
Qed.

Lemma unique_on_snoc c t (r : Row) :
  unique_on c t → existsb (clash c r) t = false → unique_on c (t ++ [r]).
Proof.
  unfold unique_on. intros Hu Hex. rewrite omap_app. apply NoDup_app.
  split; [done|]. split.
  - intros v Hv Hin. cbn in Hin. destruct (key_of c r) as [w|] eqn:Hk.
    + apply list_elem_of_singleton in Hin as ->.
      by eapply no_clash_fresh.
    + by apply not_elem_of_nil in Hin.
  - cbn. destruct (key_of c r); [apply NoDup_singleton|apply NoDup_nil_2].
Qed.

Lemma unique_on_filter c P (t : list Row) :
  unique_on c t → unique_on c (List.filter P t).
Proof.
  unfold unique_on. induction t as [|r t IH]; [done|].
  cbn. intros Hu.
  assert (NoDup (omap (key_of c) t)) as Ht.
  { destruct (key_of c r); [by apply NoDup_cons in Hu as [_ ?]|done]. }
  destruct (P r); [|by apply IH]. cbn.
  destruct (key_of c r) as [v|] eqn:Hk; [|by apply IH].
  apply NoDup_cons in Hu as [Hv _]. apply NoDup_cons. split; [|by apply IH].
  intros Hin. apply Hv.
  apply list_elem_of_omap in Hin as (r' & Hr' & Hk').
  apply list_elem_of_omap. exists r'. split; [|done].
  apply list_elem_of_In, filter_In in Hr' as [Hr' _].
  by apply list_elem_of_In.
Qed.

Section Replace.

Variable pk_col : string.

(** Under the primary key a row is the only one of its identifier. *)
Lemma unique_pk_split (loaded : Row) t v :
  unique_on pk_col t → loaded ∈ t →
  pk_of pk_col loaded = Some v → v ≠ VNone →
  ∃ l1 l2, t = l1 ++ loaded :: l2
    ∧ ∀ r, r ∈ l1 ++ l2 → same_pk pk_col loaded r = false.
Proof.
  intros Hu Hin Hpk Hv.
  apply list_elem_of_split in Hin as (l1 & l2 & ->).
  exists l1, l2. split; [done|].
  assert (key_of pk_col loaded = Some v) as Hk.
  { unfold key_of. unfold pk_of in Hpk. rewrite Hpk. by destruct v. }
  unfold unique_on in Hu. rewrite omap_app in Hu. cbn in Hu.
  rewrite Hk in Hu. apply NoDup_app in Hu as (_ & H1 & H2).
  apply NoDup_cons in H2 as [H2 _].
  intros r Hr. unfold same_pk. apply bool_decide_eq_false_2. intros Heq.
  assert (key_of pk_col r = Some v) as Hkr.
  { unfold key_of, pk_of in *. rewrite <- Heq, Hpk. by destruct v. }
  apply elem_of_app in Hr as [Hr|Hr].
  - apply (H1 v); [|left]. apply list_elem_of_omap. eauto.
  - apply H2. apply list_elem_of_omap. eauto.
Qed.

Lemma others_split (loaded : Row) l1 l2 :
  (∀ r, r ∈ l1 ++ l2 → same_pk pk_col loaded r = false) →
  List.filter (λ r, negb (same_pk pk_col loaded r)) (l1 ++ loaded :: l2)
  = l1 ++ l2.
Proof.
  intros Hno.
  assert (∀ l : list Row, (∀ r, r ∈ l → same_pk pk_col loaded r = false) →
    List.filter (λ r, negb (same_pk pk_col loaded r)) l = l) as Hid.
  { induction l as [|r l IH]; [done|]. intros H. cbn.
    rewrite (H r) by left. cbn.
    rewrite IH; [done|]. intros r' Hr'. apply H. by right. }
  assert (same_pk pk_col loaded loaded = true) as Hself.
  { unfold same_pk. by apply bool_decide_eq_true_2. }
  rewrite List.filter_app. cbn. rewrite Hself. cbn.
  rewrite !Hid; [done|intros r Hr; apply Hno, elem_of_app; auto..].
Qed.

(** Writing the new version of one row after the others keeps a column
    unique when the new value is the old one or collides with no other
    row. *)
Lemma unique_on_moved c (loaded current : Row) l1 l2 :
  unique_on c (l1 ++ loaded :: l2) →
  (loaded !! c = current !! c
   ∨ existsb (clash c current) (l1 ++ l2) = false) →
  unique_on c ((l1 ++ l2) ++ [current]).
Proof.
  intros Hu Hor.
  assert (existsb (clash c current) (l1 ++ l2) = false) as Hex.
  { destruct Hor as [Heq|?]; [|done].
    destruct (existsb _ _) eqn:E; [|done]. exfalso.
    apply existsb_exists in E as (r & Hr & Hclash).
    apply clash_key in Hclash as (v & Hv & Hkr).
    assert (key_of c loaded = Some v) as Hk.
    { unfold key_of in *. by rewrite Heq. }
    unfold unique_on in Hu. rewrite omap_app in Hu. cbn in Hu.
    rewrite Hk in Hu. apply NoDup_app in Hu as (_ & H1 & [H2 _]%NoDup_cons).
    apply list_elem_of_In, elem_of_app in Hr as [Hr|Hr].
    - apply (H1 v); [|left]. apply list_elem_of_omap. eauto.
    - apply H2. apply list_elem_of_omap. eauto. }
  apply unique_on_snoc; [|done].
  unfold unique_on in *. rewrite omap_app in *. cbn in Hu.
  destruct (key_of c loaded); [|done].
  apply NoDup_app in Hu as (H1 & H2 & [_ H3]%NoDup_cons).
  apply NoDup_app. repeat split; [done| |done].
  intros x Hx Hx'. apply (H2 x Hx). by right.
Qed.

End Replace.

Section FlushUnique.

Variable pk_col : string.
Variable unique_cols : list string.

Lemma flush_op_unique env t op t' c :
  c ∈ pk_col :: unique_cols →
  unique_on pk_col t → unique_on c t →
  match op with
  | OpSet loaded _ =>
      loaded ∈ t ∧ ∃ v, pk_of pk_col loaded = Some v ∧ v ≠ VNone
  | _ => True
  end →
  flush_op pk_col unique_cols env t op = inr t' →
  unique_on c t'.
Proof.
  intros Hc Hpk Hu Hop. destruct op as [obj|loaded current|obj];
    cbn [flush_op].
  - destruct (violates _ _ _) eqn:Hv; [done|]. intros [= <-].
    apply unique_on_snoc; [done|]. by eapply violates_col.
  - destruct (decide _); [by intros [= <-]|].
    destruct Hop as (Hin & v & Hv1 & Hv2).
    destruct (unique_pk_split _ _ _ _ Hpk Hin Hv1 Hv2) as (l1 & l2 & -> & Hno).
    rewrite (others_split pk_col loaded l1 l2 Hno).
    destruct (violates _ _ _) eqn:Hv; [done|]. intros [= <-].
    apply (unique_on_moved c loaded); [done|].
    destruct (decide (loaded !! c = current !! c)) as [|Hne]; [by left|].
    right. eapply violates_col; [done|].
    apply list_elem_of_In, filter_In. split; [by apply list_elem_of_In|].
    unfold changed. by apply bool_decide_eq_true_2.
  - intros [= <-]. by apply unique_on_filter.
Qed.

(** The table a commit of one pending statement leaves. *)
Lemma commit_one env t op o db' :
  commit pk_col unique_cols env {| table := t; pending := [op] |} = (o, db') →
  table db' = t ∨ flush_op pk_col unique_cols env t op = inr (table db').
Proof.
  unfold commit. destruct (fault_at env AtCommit); [intros [= <- <-]; by left|].
  cbn [pending table flush].
  destruct (flush_op _ _ _ _ _) as [e|t'']; intros [= <- <-]; auto.
Qed.

Lemma commit_refresh_one env obj t op res db' :
  commit_refresh pk_col unique_cols env obj {| table := t; pending := [op] |}
    = (res, db') →
  table db' = t ∨ flush_op pk_col unique_cols env t op = inr (table db').
Proof.
  intros H.
  pose proof (commit_refresh_snd pk_col unique_cols env obj
                {| table := t; pending := [op] |}) as Hsnd.
  rewrite H in Hsnd. cbn [snd] in Hsnd.
  destruct (commit _ _ _ _) as [o db''] eqn:Hc. cbn [snd] in Hsnd. subst db''.
  by eapply commit_one.
Qed.

End FlushUnique.

Lemma customer_serve_unique env req t c :
  c ∈ CustomerService.pk_col :: CustomerService.unique_cols →
  unique_on CustomerService.pk_col t → unique_on c t →
  unique_on c (CustomerService.serve env req t).
Proof.
  intros Hc Hpk Hu. destruct req as [cust|q|id|id data|id]; cbn [CustomerService.serve].
  - unfold CustomerService.create_customer, add. cbn [table pending session_of app].
    destruct (commit_refresh _ _ _ _ _) as [o db'] eqn:Hcommit.
    apply commit_refresh_one in Hcommit as Hcases.
    assert (unique_on c (table db')) as Hgoal.
    { destruct Hcases as [->|Hflush]; [done|].
      by eapply flush_op_unique in Hflush. }
    destruct o as [[]|]; done.
  - done.
  - unfold CustomerService.get_customer. by destruct (first _).
  - unfold CustomerService.update_customer, query, modified.
    cbn [table pending session_of app].
    destruct (first _) as [loaded|] eqn:Hfirst; [|done].
    destruct (first_filter_pk _ _ _ _ Hfirst) as [Hin Hloaded].
    destruct (commit_refresh _ _ _ _ _) as [o db'] eqn:Hcommit.
    apply commit_refresh_one in Hcommit as Hcases.
    assert (unique_on c (table db')) as Hgoal.
    { destruct Hcases as [->|Hflush]; [done|].
      eapply flush_op_unique in Hflush; [done..|].
      split; [done|]. by exists (VInt id). }
    destruct o as [[]|]; done.
  - unfold CustomerService.delete_customer, query, delete.
    cbn [table pending session_of app].
    destruct (first _) as [loaded|] eqn:Hfirst; [|done].
    destruct (commit _ _ _ _) as [o db'] eqn:Hcommit.
    apply commit_one in Hcommit as Hcases.
    assert (unique_on c (table db')) as Hgoal.
    { destruct Hcases as [->|Hflush]; [done|].
      by eapply flush_op_unique in Hflush. }
    destruct o as [[]|]; done.
Qed.

Lemma customer_serve_consistent env req t :
  consistent t → consistent (CustomerService.serve env req t).
Proof.
  intros [Hpk Hemail]. split; apply customer_serve_unique; try done.
  - left.
  - right. left.
Qed.

(** A request with the email of a stored customer collides at the flush. *)
Lemma customer_create_duplicate env cust t (r : Row) v :
  r ∈ t → r !! "email" = Some v → v ≠ VNone →
  CustomerService.email cust = v →
  snd (CustomerService.create_customer env cust (session_of t)) = session_of t
  ∧ (fault env = None ∨ fault env = Some IntegrityError →
     fst (CustomerService.create_customer env cust (session_of t))
     = HTTPException 400 "Email already registered.").
Proof.
  intros Hin Hr Hv Hemail.
  unfold CustomerService.create_customer, add, commit_refresh, commit.
  cbn [table pending session_of app flush flush_op].
  set (obj := CustomerService.Customer _ _ _ _ _ _).
  assert (violates (CustomerService.pk_col :: CustomerService.unique_cols) t
            (flushed CustomerService.pk_col env obj) = true) as ->.
  { unfold violates. apply existsb_exists. exists "email".
    split; [right; by left|].
    apply existsb_exists. exists r. split; [by apply list_elem_of_In|].
    unfold clash. rewrite Hr.
    assert (flushed CustomerService.pk_col env obj !! "email" = Some v) as ->.
    { unfold flushed, pk_of, obj, CustomerService.Customer, CustomerService.pk_col.
      rewrite Hemail. by simplify_map_eq. }
    destruct v; try done; by apply bool_decide_eq_true_2. }
  destruct (fault_at env AtCommit) as [e|] eqn:Hf.
  - split; [by destruct e|]. intros [Hn|Hi].
    + by rewrite (fault_at_none _ _ Hn) in Hf.
    + assert (e = IntegrityError) as ->; [|done].
      unfold fault_at in Hf. rewrite Hi in Hf.
      destruct (site env); congruence.
  - done.
Qed.

(** ** The order table is append and delete only *)

Lemma order_serve_shape ucols env req t :
  OrderService.serve ucols env req t = t
  ∨ (∃ order, req = OrderService.CreateOrder order
       ∧ OrderService.serve ucols env req t
         = t ++ [flushed OrderService.pk_col env order])
  ∨ (∃ id obj, req = OrderService.DeleteOrder id
       ∧ OrderService.serve ucols env req t
         = List.filter (λ r, negb (same_pk OrderService.pk_col obj r)) t).
Proof.
  destruct req as [| |order|q|id|id]; cbn [OrderService.serve]; auto.
  - unfold OrderService.create_order, add. cbn [table pending session_of app].
    destruct (commit_refresh _ _ _ _ _) as [o db'] eqn:Hcommit.
    apply commit_refresh_one in Hcommit as [Ht|Hflush].
    + left. by destruct o.
    + cbn [flush_op] in Hflush. destruct (violates _ _ _); [done|].
      injection Hflush as Hflush. right. left. exists order.
      split; [done|]. by destruct o.
  - left. unfold OrderService.get_order. by destruct (first _).
  - unfold OrderService.delete_order, query, delete.
    cbn [table pending session_of app].
    destruct (first _) as [obj|]; [|by left].
    destruct (commit _ _ _ _) as [o db'] eqn:Hcommit.
    apply commit_one in Hcommit as [Ht|Hflush].
    + left. by destruct o.
    + cbn [flush_op] in Hflush. injection Hflush as Hflush.
      right. right. exists id, obj. split; [done|]. by destruct o.
Qed.

Lemma order_serve_rows ucols env req t (r : Row) :
  r ∈ OrderService.serve ucols env req t →
  r ∈ t ∨ ∃ order, req = OrderService.CreateOrder order
                   ∧ r = flushed OrderService.pk_col env order.
Proof.
  destruct (order_serve_shape ucols env req t)
    as [->|[(order & -> & ->)|(id & obj & -> & ->)]]; [auto| |].
  - intros [? | ->%list_elem_of_singleton]%elem_of_app; eauto.
  - intros Hr. apply list_elem_of_In, filter_In in Hr as [Hr _].
    left. by apply list_elem_of_In.
Qed.

Lemma run_orders_rows ucols reqs t (r : Row) :
  r ∈ run_orders ucols reqs t →
  r ∈ t ∨ ∃ env order, (env, OrderService.CreateOrder order) ∈ reqs
                       ∧ r = flushed OrderService.pk_col env order.
Proof.
  revert t. induction reqs as [|[env req] reqs IH]; intros t; [by left|].
  cbn [run_orders]. intros [Hr|(env' & order & Hin & ->)]%IH.
  - apply order_serve_rows in Hr as [?|(order & -> & ->)]; [by left|].
    right. exists env, order. split; [left|done].
  - right. exists env', order. split; [by right|done].
Qed.

Lemma order_routes_no_put path : (PUT, path) ∉ OrderService.routes.
Proof.
  unfold OrderService.routes. intros H.
  repeat (apply elem_of_cons in H as [H|H]; [done|]).
  by apply not_elem_of_nil in H.
Qed.

(** ** The startup loop *)

Section Startup.

Variable on_other : exn → completion.
Variable create_all : nat → option exn.

Lemma for_range_exhausted i n :
  (∀ j, (j < n)%nat → create_all (i + j) = Some OperationalError) →
  for_range (attempt_body on_other create_all) i n
  = (failed_from i n, Continue).
Proof.
  revert i. induction n as [|n IH]; intros i H; [done|].
  assert (create_all i = Some OperationalError) as Hi.
  { rewrite <- (H 0%nat) by lia. f_equal. lia. }
  cbn [for_range]. unfold attempt_body at 1. rewrite Hi.
  rewrite IH; [done|].
  intros j Hj. replace (S i + j)%nat with (i + S j)%nat by lia.
  apply H. lia.
Qed.

Lemma for_range_stops i n k :
  (k < n)%nat →
  (∀ j, (j < k)%nat → create_all (i + j) = Some OperationalError) →
  create_all (i + k) ≠ Some OperationalError →
  for_range (attempt_body on_other create_all) i n
  = (failed_from i k ++ fst (attempt_body on_other create_all (i + k)),
     snd (attempt_body on_other create_all (i + k))).
Proof.
  revert i n. induction k as [|k IH]; intros i n Hk H Hstop.
  - destruct n as [|n]; [lia|]. cbn [for_range].
    replace (i + 0)%nat with i in * by lia.
    unfold failed_from. cbn [seq flat_map app].
    unfold attempt_body in *.
    destruct (create_all i) as [[]|]; done.
  - destruct n as [|n]; [lia|].
    assert (create_all i = Some OperationalError) as Hi.
    { rewrite <- (H 0%nat) by lia. f_equal. lia. }
    cbn [for_range]. unfold attempt_body at 1. rewrite Hi.
    rewrite (IH (S i) n); [| lia | |].
    + replace (S i + k)%nat with (i + S k)%nat by lia. done.
    + intros j Hj. replace (S i + j)%nat with (i + S j)%nat by lia.
      apply H. lia.
    + by replace (S i + k)%nat with (i + S k)%nat by lia.
Qed.

Lemma for_range_attempts i n :
  (attempts (fst (for_range (attempt_body on_other create_all) i n)) ≤ n)%nat.
Proof.
  revert i. induction n as [|n IH]; intros i; [done|].
  cbn [for_range]. unfold attempt_body at 1.
  destruct (create_all i) as [[]|]; cbn; try lia.
  specialize (IH (S i)).
  destruct (for_range _ (S i) n) as [tr c]. cbn in *. lia.
Qed.

End Startup.

Lemma startup_contract_loop on_other :
  (∀ e, lifespan (on_other e) = Terminated) →
  startup_contract (λ environ create_all,
    if db_disabled environ then ([], Return)
    else after_loop (for_range (attempt_body on_other create_all) 0 10)).
Proof.
  intros Hterm environ create_all. split; [by intros ->|].
  intros ->. split; [|split].
  - pose proof (for_range_attempts on_other create_all 0 10) as H.
    by destruct (for_range _ 0 10) as [tr [| |c]].
  - intros Hall. by rewrite for_range_exhausted.
  - intros k Hk Hfail. split.
    + intros Hok.
      rewrite (for_range_stops on_other create_all 0 10 k Hk Hfail)
        by (cbn; congruence).
      cbn [Nat.add]. unfold attempt_body. by rewrite Hok.
    + intros e He Hne.
      rewrite (for_range_stops on_other create_all 0 10 k Hk Hfail)
        by (cbn; congruence).
      cbn [Nat.add]. unfold attempt_body. rewrite He.
      destruct e; try done; cbn; by rewrite Hterm.
Qed.


(** ** Error exits of the customer and product handlers *)

Section ErrorExits.

Variable unique_cols : list string.
Variable env : Env.

Lemma customer_create_exit c db :
  fault_at env AtRefresh = None →
  rolled_back_on_error db (CustomerService.create_customer env c db).
Proof.
  intros Hs. unfold CustomerService.create_customer.
  destruct (commit_refresh _ _ _ _ _) as [[e|] db1] eqn:Hc; [|done].
  apply commit_refresh_inl in Hc as [[_ ->]|[_ Hr]].
  - destruct e; cbn; right; rewrite rollback_add; auto.
  - congruence.
Qed.

Lemma customer_update_exit id data db :
  fault_at env AtRefresh = None →
  rolled_back_on_error db (CustomerService.update_customer env id data db).
Proof.
  intros Hs. unfold CustomerService.update_customer.
  destruct (first _); [|cbn; auto].
  destruct (commit_refresh _ _ _ _ _) as [[e|] db1] eqn:Hc; [|done].
  apply commit_refresh_inl in Hc as [[_ ->]|[_ Hr]].
  - destruct e; cbn; right; rewrite rollback_modified; auto.
  - congruence.
Qed.

Lemma customer_delete_exit id db :
  rolled_back_on_error db (CustomerService.delete_customer env id db).
Proof.
  unfold CustomerService.delete_customer.
  destruct (first _); [|cbn; auto].
  destruct (commit _ _ _ _) as [[e|] db1] eqn:Hc; [|done].
  apply commit_failed in Hc as ->.
  cbn; right; rewrite rollback_delete; auto.
Qed.

Lemma product_create_exit p db :
  fault_at env AtRefresh = None →
  rolled_back_on_error db (ProductService.create_product unique_cols env p db).
Proof.
  intros Hs. unfold ProductService.create_product.
  destruct (commit_refresh _ _ _ _ _) as [[e|] db1] eqn:Hc; [|done].
  apply commit_refresh_inl in Hc as [[_ ->]|[_ Hr]].
  - destruct e; cbn; right; rewrite rollback_add; auto.
  - congruence.
Qed.

Lemma product_update_exit id data db :
  fault_at env AtRefresh = None →
  rolled_back_on_error db
    (ProductService.update_product unique_cols env id data db).
Proof.
  intros Hs. unfold ProductService.update_product.
  destruct (first _); [|cbn; auto].
  destruct (commit_refresh _ _ _ _ _) as [[e|] db1] eqn:Hc; [|done].
  apply commit_refresh_inl in Hc as [[_ ->]|[_ Hr]].
  - cbn; right; rewrite rollback_modified; auto.
  - congruence.
Qed.

Lemma product_delete_exit id db :
  rolled_back_on_error db (ProductService.delete_product unique_cols env id db).
Proof.
  unfold ProductService.delete_product.
  destruct (first _); [|cbn; auto].
  destruct (commit _ _ _ _) as [[e|] db1] eqn:Hc; [|done].
  apply commit_failed in Hc as ->.
  cbn; right; rewrite rollback_delete; auto.
Qed.

(** The update of a product never answers 400. *)
Lemma product_update_never_conflict id data db detail :
  fst (ProductService.update_product unique_cols env id data db)
  ≠ HTTPException 400 detail.
Proof.
  unfold ProductService.update_product.
  destruct (first _); [|done].
  by destruct (commit_refresh _ _ _ _ _) as [[e|] db1].
Qed.

End ErrorExits.
(** [contains_ci] is the case-insensitive substring relation on text
    columns. *)
Lemma contains_ci_spec col s :
  contains_ci col s = true
  ↔ ∃ x a b, col = Some (VStr x) ∧ lower x = (a ++ lower s ++ b)%string.
Proof.
  unfold contains_ci. destruct col as [[| x | |]|];
    try (split; [done|by intros (? & ? & ? & ? & ?)]).
  rewrite contains_spec. split.
  - intros (a & b & H). by exists x, a, b.
  - intros (x' & a & b & [= <-] & H). by exists a, b.
Qed.

Lemma matches_spec s (c : Row) :
  matches s c = true
  ↔ ∃ col, col ∈ ["first_name"; "last_name"; "email"]
      ∧ ∃ x a b, c !! col = Some (VStr x)
                 ∧ lower x = (a ++ lower s ++ b)%string.
Proof.
  unfold matches. rewrite !orb_true_iff, !contains_ci_spec. split.
  - intros [[H|H]|H].
    + exists "first_name". split; [left|done].
    + exists "last_name". split; [right; left|done].
    + exists "email". split; [right; right; left|done].
  - intros (col & Hcol & H).
    repeat (apply elem_of_cons in Hcol as [->|Hcol]; [tauto|]).
    by apply not_elem_of_nil in Hcol.
Qed.

(** * Main results *)

(** C1.  Creating a customer whose email is the email of a stored customer
    stores no row: the session is left as it was found, whatever the
    database does.  Unless the commit meets another storage failure, the
    answer is 400 with the detail "Email already registered.".  Primary key
    and email uniqueness hold for the empty table and are kept by every
    request to the customer service. *)
Theorem duplicate_email_conflict :
  (∀ env cust t (r : Row) v,
     r ∈ t → r !! "email" = Some v → v ≠ VNone →
     CustomerService.email cust = v →
     snd (CustomerService.create_customer env cust (session_of t))
       = session_of t
     ∧ (fault env = None ∨ fault env = Some IntegrityError →
        fst (CustomerService.create_customer env cust (session_of t))
        = HTTPException 400 "Email already registered."))
  ∧ consistent []
  ∧ (∀ env req t, consistent t → consistent (CustomerService.serve env req t)).
Proof.
  split; [|split].
  - intros env cust t r v. apply customer_create_duplicate.
  - split; apply NoDup_nil_2.
  - apply customer_serve_consistent.
Qed.

Lemma duplicate_email_conflict_witness :
  CustomerService.create_customer env_ok eve_with_anns_email (session_of [ann; bob])
  = (HTTPException 400 "Email already registered.", session_of [ann; bob]).
Proof.
  destruct (proj1 duplicate_email_conflict env_ok eve_with_anns_email
              [ann; bob] ann (VStr "a@x.com")) as [H1 H2].
  - left.
  - reflexivity.
  - discriminate.
  - reflexivity.
  - apply injective_projections; [apply H2; left; reflexivity | exact H1].
Defined.

(** C2, as the handlers have it.  In the customer and product services a
    storage failure raised at commit is rolled back before an
    [HTTPException] is raised: 400 for an [IntegrityError] on Create and on
    the customer Update, 500 for every other failure and for every failure
    of the product Update and of Delete; unless a failure is raised by the
    refresh that follows a commit, every error exit of these handlers
    leaves the table as it was and no unit of work.  The order service has
    no handler for the failure: it leaves [create_order] and
    [delete_order] as the exception that was raised, the table
    unchanged. *)
Theorem commit_failure_surfaced :
  (∀ ucols env e,
     fault env = Some e → site env = AtCommit →
     (∀ c db, ∃ detail,
        CustomerService.create_customer env c db
        = (HTTPException (failure_status e) detail, rollback db))
     ∧ (∀ id data db,
        ¬ absent CustomerService.pk_col id (table db) →
        ∃ detail,
          CustomerService.update_customer env id data db
          = (HTTPException (failure_status e) detail, rollback db))
     ∧ (∀ id db,
        ¬ absent CustomerService.pk_col id (table db) →
        CustomerService.delete_customer env id db
        = (HTTPException 500 "Could not delete customer", rollback db))
     ∧ (∀ p db, ∃ detail,
        ProductService.create_product ucols env p db
        = (HTTPException (failure_status e) detail, rollback db))
     ∧ (∀ id data db,
        ¬ absent ProductService.pk_col id (table db) →
        ∃ code detail,
          ProductService.update_product ucols env id data db
          = (HTTPException code detail, rollback db)
          ∧ (e ≠ IntegrityError → code = 500))
     ∧ (∀ id db,
        ¬ absent ProductService.pk_col id (table db) →
        ProductService.delete_product ucols env id db
        = (HTTPException 500 "Could not delete product", rollback db))
     ∧ (∀ order db,
        fst (OrderService.create_order ucols env order db) = Uncaught e
        ∧ table (snd (OrderService.create_order ucols env order db))
          = table db)
     ∧ (∀ id db,
        ¬ absent OrderService.pk_col id (table db) →
        fst (OrderService.delete_order ucols env id db) = Uncaught e
        ∧ table (snd (OrderService.delete_order ucols env id db))
          = table db))
  ∧ (∀ ucols env,
     fault_at env AtRefresh = None →
     (∀ c db, rolled_back_on_error db
                (CustomerService.create_customer env c db))
     ∧ (∀ id data db, rolled_back_on_error db
                (CustomerService.update_customer env id data db))
     ∧ (∀ id db, rolled_back_on_error db
                (CustomerService.delete_customer env id db))
     ∧ (∀ p db, rolled_back_on_error db
                (ProductService.create_product ucols env p db))
     ∧ (∀ id data db, rolled_back_on_error db
                (ProductService.update_product ucols env id data db))
     ∧ (∀ id db, rolled_back_on_error db
                (ProductService.delete_product ucols env id db))).
Proof.
  split.
  - intros ucols env e Hf Hs. repeat apply conj.
    + intros. by apply customer_create_fault.
    + intros. by apply customer_update_fault.
    + intros. by eapply customer_delete_fault.
    + intros. by apply product_create_fault.
    + intros id data db Hex. exists 500, "Could not update product".
      split; [by eapply product_update_fault|done].
    + intros. by eapply product_delete_fault.
    + intros. by rewrite (order_create_fault ucols env e).
    + intros. by rewrite (order_delete_fault ucols env e).
  - intros ucols env Hs. repeat apply conj; intros.
    + by apply customer_create_exit.
    + by apply customer_update_exit.
    + apply customer_delete_exit.
    + by apply product_create_exit.
    + by apply product_update_exit.
    + apply product_delete_exit.
Qed.

Lemma commit_failure_surfaced_witness :
  CustomerService.delete_customer env_down 1 (session_of [ann; bob])
  = (HTTPException 500 "Could not delete customer", session_of [ann; bob]).
Proof.
  destruct (proj1 commit_failure_surfaced [] env_down OperationalError)
    as (_ & _ & H & _); [reflexivity | reflexivity |].
  apply (H 1 (session_of [ann; bob])).
  intros Habs. apply (Habs ann); [left | reflexivity].
Defined.

(** The claim of C2 fails in the order service: a uniqueness violation at
    the commit of [create_order] is not surfaced as Conflict, and no other
    storage failure as an [HTTPException] either: the handler is left by
    the exception the storage raised. *)
Lemma order_failure_not_surfaced :
  fst (OrderService.create_order [] env_clash (order_row 1 1) (session_of []))
  = Uncaught IntegrityError
  ∧ fst (OrderService.create_order [] env_down (order_row 1 1) (session_of []))
    = Uncaught OperationalError
  ∧ (∀ code detail,
     fst (OrderService.create_order [] env_clash (order_row 1 1)
            (session_of []))
     ≠ HTTPException code detail).
Proof. split; [|split]; [reflexivity | reflexivity | discriminate]. Qed.

(** C3, as the handlers have it.  The customer and product lists, for a
    skip and a limit that are row counts of the database (not negative
    and below 2^63), answer the page of the table: the rows after the
    first [skip], at most [limit] of them, in storage order; skip defaults
    to 0 and limit to 100; with skip 0 and limit 2 over five rows the
    answer is the first two rows.  The order list takes neither parameter
    and answers every stored row in storage order. *)
Theorem list_pages :
  (∀ q t,
     q_search q = None →
     0 ≤ default 0 (q_skip q) < 2 ^ 63 →
     0 ≤ default 100 (q_limit q) < 2 ^ 63 →
     CustomerService.get_customers q (session_of t)
     = (Ok 200 (page (default 0 (q_skip q)) (default 100 (q_limit q)) t),
        session_of t))
  ∧ (∀ q t,
     0 ≤ default 0 (q_skip q) < 2 ^ 63 →
     0 ≤ default 100 (q_limit q) < 2 ^ 63 →
     ProductService.get_products q (session_of t)
     = (Ok 200 (page (default 0 (q_skip q)) (default 100 (q_limit q)) t),
        session_of t))
  ∧ (∀ q t, OrderService.get_orders q (session_of t)
            = (Ok 200 t, session_of t))
  ∧ (∀ skip limit t,
     0 ≤ skip → 0 ≤ limit →
     Z.of_nat (List.length (page skip limit t)) ≤ limit
     ∧ ∀ i : nat, Z.of_nat i < limit →
         page skip limit t !! i = t !! (Z.to_nat skip + i)%nat)
  ∧ (∀ t, CustomerService.get_customers
            {| q_skip := None; q_limit := None; q_search := None |}
            (session_of t)
          = (Ok 200 (page 0 100 t), session_of t))
  ∧ (∀ r1 r2 r3 r4 r5 : Row,
     CustomerService.get_customers first_two (session_of [r1; r2; r3; r4; r5])
     = (Ok 200 [r1; r2], session_of [r1; r2; r3; r4; r5])
     ∧ ProductService.get_products first_two (session_of [r1; r2; r3; r4; r5])
       = (Ok 200 [r1; r2], session_of [r1; r2; r3; r4; r5])).
Proof.
  repeat split.
  - by apply customers_page.
  - by apply products_page.
  - by apply page_length.
  - intros i Hi. by apply page_lookup.
Qed.

Lemma list_pages_witness :
  CustomerService.get_customers first_two (session_of [ann; bob])
  = (Ok 200 (page 0 2 [ann; bob]), session_of [ann; bob]).
Proof.
  apply (proj1 list_pages first_two [ann; bob]).
  - reflexivity.
  - simpl. lia.
  - simpl. lia.
Defined.

(** The claim of C3 fails for orders: asked for skip 0 and limit 2 over
    five stored orders, the order list answers all five. *)
Lemma order_list_not_paged :
  fst (OrderService.get_orders first_two (session_of five_orders))
  = Ok 200 five_orders
  ∧ List.length five_orders = 5%nat
  ∧ fst (OrderService.get_orders first_two (session_of five_orders))
    ≠ Ok 200 (page 0 2 five_orders).
Proof.
  repeat split. intros H. injection H as H. discriminate (f_equal List.length H).
Qed.

(** C4.  A committed update of a customer or a product answers 200 with
    the entity in which every attribute of the partial input has the value
    given and every other attribute has the value it had; the stored row is
    that entity and the rows of other identifiers are the same rows in the
    same order.  Setting only [first_name] of a customer is committed
    whenever the storage does not fail, and leaves email, last name, phone
    number and shipping address as they were; more generally an update
    whose values for the unique columns (the email of a customer) are held
    by no other row is committed whenever the storage does not fail, and
    answers the stored entity overridden by the partial input.  The partial
    input carries no primary key: the identifier comes from the path. *)
Theorem update_exclude_unset :
  (∀ env id (data : Row) t code body db',
     data !! CustomerService.pk_col = None →
     CustomerService.update_customer env id data (session_of t)
       = (Ok code body, db') →
     code = 200
     ∧ ∃ loaded,
         CustomerService.get_customer id (session_of t)
           = (Ok 200 loaded, session_of t)
         ∧ (∀ k v, data !! k = Some v → body !! k = Some v)
         ∧ (∀ k, data !! k = None → body !! k = loaded !! k)
         ∧ CustomerService.get_customer id db' = (Ok 200 body, db')
         ∧ without CustomerService.pk_col id (table db')
           = without CustomerService.pk_col id t)
  ∧ (∀ ucols env id (data : Row) t code body db',
     data !! ProductService.pk_col = None →
     ProductService.update_product ucols env id data (session_of t)
       = (Ok code body, db') →
     code = 200
     ∧ ∃ loaded,
         ProductService.get_product id (session_of t)
           = (Ok 200 loaded, session_of t)
         ∧ (∀ k v, data !! k = Some v → body !! k = Some v)
         ∧ (∀ k, data !! k = None → body !! k = loaded !! k)
         ∧ ProductService.get_product id db' = (Ok 200 body, db')
         ∧ without ProductService.pk_col id (table db')
           = without ProductService.pk_col id t)
  ∧ (∀ env id x t loaded,
     fault env = None →
     CustomerService.get_customer id (session_of t)
       = (Ok 200 loaded, session_of t) →
     ∃ body db',
       CustomerService.update_customer env id {["first_name" := x]}
         (session_of t) = (Ok 200 body, db')
       ∧ body = <["first_name" := x]> loaded
       ∧ body !! "email" = loaded !! "email"
       ∧ body !! "last_name" = loaded !! "last_name"
       ∧ body !! "phone_number" = loaded !! "phone_number"
       ∧ body !! "shipping_address" = loaded !! "shipping_address")
  ∧ (∀ env id (data : Row) t loaded,
     fault env = None →
     CustomerService.get_customer id (session_of t)
       = (Ok 200 loaded, session_of t) →
     data !! CustomerService.pk_col = None →
     free_in "email" data (without CustomerService.pk_col id t) →
     ∃ db', CustomerService.update_customer env id data (session_of t)
            = (Ok 200 (data ∪ loaded), db'))
  ∧ (∀ ucols env id (data : Row) t loaded,
     fault env = None →
     ProductService.get_product id (session_of t)
       = (Ok 200 loaded, session_of t) →
     data !! ProductService.pk_col = None →
     (∀ c, c ∈ ucols → free_in c data (without ProductService.pk_col id t)) →
     ∃ db', ProductService.update_product ucols env id data (session_of t)
            = (Ok 200 (data ∪ loaded), db')).
Proof.
  split; [|split; [|split; [|split]]].
  - apply customer_update_committed.
  - apply product_update_committed.
  - apply customer_update_first_name.
  - apply customer_update_free.
  - apply product_update_free.
Qed.

Lemma update_exclude_unset_witness :
  ∃ db',
    CustomerService.update_customer env_ok 2 {["email" := VStr "rob@x.com"]}
      (session_of [ann; bob])
    = (Ok 200 ({["email" := VStr "rob@x.com"]} ∪ bob), db').
Proof.
  apply (proj1 (proj2 (proj2 (proj2 update_exclude_unset)))
           env_ok 2 {["email" := VStr "rob@x.com"]} [ann; bob] bob).
  - reflexivity.
  - reflexivity.
  - reflexivity.
  - apply free_in_check. reflexivity.
Defined.

(** C5.  For an identifier that no row of the table carries, Get, Update
    and Delete of the customer and product services and Get and Delete of
    the order service answer 404 and leave the session as it was.  Deleting
    an identifier that is stored, on a storage that does not fail, answers
    204, and a Get of the same identifier then answers 404. *)
Theorem missing_id_not_found :
  (∀ env id data db,
     absent CustomerService.pk_col id (table db) →
     CustomerService.get_customer id db
       = (HTTPException 404 "Customer not found", db)
     ∧ CustomerService.update_customer env id data db
       = (HTTPException 404 "Customer not found", db)
     ∧ CustomerService.delete_customer env id db
       = (HTTPException 404 "Customer not found", db))
  ∧ (∀ ucols env id db,
     absent OrderService.pk_col id (table db) →
     OrderService.get_order id db = (HTTPException 404 "Order not found", db)
     ∧ OrderService.delete_order ucols env id db
       = (HTTPException 404 "Order not found", db))
  ∧ (∀ ucols env id data db,
     absent ProductService.pk_col id (table db) →
     ProductService.get_product id db
       = (HTTPException 404 "Product not found", db)
     ∧ ProductService.update_product ucols env id data db
       = (HTTPException 404 "Product not found", db)
     ∧ ProductService.delete_product ucols env id db
       = (HTTPException 404 "Product not found", db))
  ∧ (∀ env id t,
     fault env = None → ¬ absent CustomerService.pk_col id t →
     ∃ t', CustomerService.delete_customer env id (session_of t)
             = (Ok 204 tt, session_of t')
         ∧ CustomerService.get_customer id (session_of t')
             = (HTTPException 404 "Customer not found", session_of t'))
  ∧ (∀ ucols env id t,
     fault env = None → ¬ absent OrderService.pk_col id t →
     ∃ t', OrderService.delete_order ucols env id (session_of t)
             = (Ok 204 tt, session_of t')
         ∧ OrderService.get_order id (session_of t')
             = (HTTPException 404 "Order not found", session_of t'))
  ∧ (∀ ucols env id t,
     fault env = None → ¬ absent ProductService.pk_col id t →
     ∃ t', ProductService.delete_product ucols env id (session_of t)
             = (Ok 204 tt, session_of t')
         ∧ ProductService.get_product id (session_of t')
             = (HTTPException 404 "Product not found", session_of t')).
Proof.
  repeat apply conj.
  - intros. by apply customer_absent.
  - intros. by apply order_absent.
  - intros. by apply product_absent.
  - intros. by apply customer_delete_then_get.
  - intros. by apply order_delete_then_get.
  - intros. by apply product_delete_then_get.
Qed.

Lemma missing_id_not_found_witness :
  (CustomerService.get_customer 999999 (session_of [])
     = (HTTPException 404 "Customer not found", session_of [])
   ∧ CustomerService.update_customer env_ok 999999 ∅ (session_of [])
     = (HTTPException 404 "Customer not found", session_of [])
   ∧ CustomerService.delete_customer env_ok 999999 (session_of [])
     = (HTTPException 404 "Customer not found", session_of []))
  ∧ ∃ t', CustomerService.delete_customer env_ok 1 (session_of [ann; bob])
            = (Ok 204 tt, session_of t')
        ∧ CustomerService.get_customer 1 (session_of t')
            = (HTTPException 404 "Customer not found", session_of t').
Proof.
  split.
  - apply (proj1 missing_id_not_found env_ok 999999 ∅ (session_of [])).
    intros r Hr. inversion Hr.
  - apply (proj1 (proj2 (proj2 (proj2 missing_id_not_found))) env_ok 1 [ann; bob]).
    + reflexivity.
    + intros Habs. apply (Habs ann); [left | reflexivity].
Defined.

(** C6, as the handler has it.  The search text is the body of a LIKE
    pattern, and letters are folded as ASCII letters.  For stored first
    names, last names and emails that are ASCII text, and a search text
    that is ASCII, not empty and holds none of [%], [_] and the backslash,
    the customer list answers, for a skip and a limit that are row counts
    of the database (not negative and below 2^63), the page of exactly
    those customers whose first name, last name or email contains the text
    as a case-insensitive substring, in storage order; searching "zube"
    answers the customer whose last name is "Zuberi".  An empty text
    filters nothing.  The order and product lists do not read a search
    parameter. *)
Theorem customer_search :
  (∀ q t s,
     q_search q = Some s → s ≠ "" → plain s = true →
     ascii_text s = true → Forall (λ c, ascii_customer c = true) t →
     0 ≤ default 0 (q_skip q) < 2 ^ 63 →
     0 ≤ default 100 (q_limit q) < 2 ^ 63 →
     CustomerService.get_customers q (session_of t)
     = (Ok 200 (page (default 0 (q_skip q)) (default 100 (q_limit q))
                  (List.filter (matches s) t)),
        session_of t))
  ∧ (∀ s (c : Row),
     matches s c = true
     ↔ ∃ col, col ∈ ["first_name"; "last_name"; "email"]
         ∧ ∃ x a b, c !! col = Some (VStr x)
                    ∧ lower x = (a ++ lower s ++ b)%string)
  ∧ (∀ q t,
     q_search q = Some "" →
     0 ≤ default 0 (q_skip q) < 2 ^ 63 →
     0 ≤ default 100 (q_limit q) < 2 ^ 63 →
     CustomerService.get_customers q (session_of t)
     = (Ok 200 (page (default 0 (q_skip q)) (default 100 (q_limit q)) t),
        session_of t))
  ∧ CustomerService.get_customers (search_for "zube") (session_of [bob; ann])
    = (Ok 200 [ann], session_of [bob; ann])
  ∧ (∀ skip limit s s' db,
     OrderService.get_orders
       {| q_skip := skip; q_limit := limit; q_search := s |} db
     = OrderService.get_orders
       {| q_skip := skip; q_limit := limit; q_search := s' |} db
     ∧ ProductService.get_products
       {| q_skip := skip; q_limit := limit; q_search := s |} db
     = ProductService.get_products
       {| q_skip := skip; q_limit := limit; q_search := s' |} db).
Proof.
  split; [|split; [|split; [|split]]].
  - intros q t s Hq Hne Hp _ _. by apply customers_search.
  - apply matches_spec.
  - apply customers_search_empty.
  - reflexivity.
  - done.
Qed.

Lemma customer_search_witness :
  CustomerService.get_customers (search_for "ZUBE") (session_of [bob; ann])
  = (Ok 200 (page 0 100 (List.filter (matches "ZUBE") [bob; ann])),
     session_of [bob; ann]).
Proof.
  apply (proj1 customer_search (search_for "ZUBE") [bob; ann] "ZUBE").
  - reflexivity.
  - discriminate.
  - reflexivity.
  - reflexivity.
  - repeat constructor.
  - simpl. lia.
  - simpl. lia.
Defined.

(** The claim of C6 fails on a search text with a LIKE metacharacter:
    searching "z_b" answers Ann Zuberi, none of whose first name, last name
    and email contains "z_b". *)
Lemma wildcard_search_overmatches :
  CustomerService.get_customers (search_for "z_b") (session_of [bob; ann])
  = (Ok 200 [ann], session_of [bob; ann])
  ∧ matches "z_b" ann = false
  ∧ List.filter (matches "z_b") [bob; ann] = [].
Proof. repeat split. Qed.

(** C7, on the code.  An update that gives a product the name of another
    product, the name being unique, is answered with 500 "Could not update
    product" and not with 400, where the customer update answers 400 for an
    email in use and the product creation answers 400 for a name in use.
    No update of a product is ever answered with 400. *)
Theorem product_update_conflict_is_500 :
  ProductService.update_product ["name"] env_ok 2 {["name" := VStr "Mug"]}
    (session_of two_products)
  = (HTTPException 500 "Could not update product", session_of two_products)
  ∧ CustomerService.update_customer env_ok 2 {["email" := VStr "a@x.com"]}
      (session_of [ann; bob])
    = (HTTPException 400 "Updated email already exists",
       session_of [ann; bob])
  ∧ ProductService.create_product ["name"] env_ok (<["name" := VStr "Mug"]> ∅)
      (session_of two_products)
    = (HTTPException 400 "Product already exists", session_of two_products)
  ∧ (∀ ucols env id data db detail,
     fst (ProductService.update_product ucols env id data db)
     ≠ HTTPException 400 detail).
Proof.
  repeat split. intros. apply product_update_never_conflict.
Qed.

(** C8.  The order application registers no PUT route.  A request to the
    order service leaves the table as it was, or with the created row
    appended, or with the rows of the deleted identifier removed; so after
    any sequence of requests every stored order is, attribute for
    attribute, a row of the initial table or the row one of the Create
    requests stored. *)
Theorem order_rows_never_modified :
  (∀ path, (PUT, path) ∉ OrderService.routes)
  ∧ (∀ ucols env req t,
     OrderService.serve ucols env req t = t
     ∨ (∃ order, req = OrderService.CreateOrder order
          ∧ OrderService.serve ucols env req t
            = t ++ [flushed OrderService.pk_col env order])
     ∨ (∃ id obj, req = OrderService.DeleteOrder id
          ∧ OrderService.serve ucols env req t
            = List.filter (λ r, negb (same_pk OrderService.pk_col obj r)) t))
  ∧ (∀ ucols reqs t (r : Row),
     r ∈ run_orders ucols reqs t →
     r ∈ t ∨ ∃ env order, (env, OrderService.CreateOrder order) ∈ reqs
                          ∧ r = flushed OrderService.pk_col env order).
Proof.
  split; [|split].
  - apply order_routes_no_put.
  - apply order_serve_shape.
  - apply run_orders_rows.
Qed.

Lemma order_rows_never_modified_witness :
  order_row 2 1 ∈ five_orders
  ∨ ∃ env order,
      (env, OrderService.CreateOrder order)
        ∈ [(env_ok, OrderService.DeleteOrder 1);
           (env_ok, OrderService.GetOrder 2)]
      ∧ order_row 2 1 = flushed OrderService.pk_col env order.
Proof.
  apply (proj2 (proj2 order_rows_never_modified) []
           [(env_ok, OrderService.DeleteOrder 1);
            (env_ok, OrderService.GetOrder 2)] five_orders).
  apply (bool_decide_unpack _). vm_compute. exact I.
Defined.

(** C9.  In each service the startup hook does nothing when DISABLE_DB is
    "true" in any letter case.  Otherwise it calls [create_all] at most 10
    times: after each call that fails with [OperationalError] it sleeps 5
    seconds and goes on; the first call that returns ends the loop; the
    first call that fails with anything else ends the process ([sys.exit]
    in the customer service, the exception leaving the hook in the other
    two); after 10 connectivity failures the hook returns and the service
    runs without the schema having been created. *)
Theorem startup_retries :
  startup_contract CustomerStartup.startup_event
  ∧ startup_contract OrderStartup.startup_event
  ∧ startup_contract ProductStartup.startup_event
  ∧ db_disabled ∅ = false
  ∧ db_disabled {["DISABLE_DB" := "True"]} = true
  ∧ Initialized ∉ failed_from 0 10.
Proof.
  split; [|split; [|split; [|split; [|split]]]].
  - apply (startup_contract_loop (λ _, Exit 1)). done.
  - apply (startup_contract_loop Raise). done.
  - apply (startup_contract_loop Raise). done.
  - reflexivity.
  - reflexivity.
  - intros H. vm_compute in H.
    repeat (apply elem_of_cons in H as [H|H]; [discriminate|]).
    by apply not_elem_of_nil in H.
Qed.

Lemma startup_retries_witness :
  fst (OrderStartup.startup_event ∅
         (λ i, if (i <? 2)%nat then Some OperationalError
               else Some IntegrityError))
  = failed_from 0 2 ++ [Attempt 2]
  ∧ lifespan (snd (OrderStartup.startup_event ∅
         (λ i, if (i <? 2)%nat then Some OperationalError
               else Some IntegrityError)))
    = Terminated.
Proof.
  destruct (proj1 (proj2 startup_retries) ∅
              (λ i, if (i <? 2)%nat then Some OperationalError
                    else Some IntegrityError)) as [_ H].
  destruct (H eq_refl) as (_ & _ & H2).
  destruct (H2 2%nat) as [_ H3].
  - lia.
  - intros i Hi. destruct i as [|[|i]]; [reflexivity | reflexivity | lia].
  - apply (H3 IntegrityError); [reflexivity | discriminate].
Defined.

(** C10.  On a storage that does not fail, an update of a stored customer
    or product whose partial input sets no field answers 200 with the
    entity as stored and leaves the session, and so every row, as it
    was. *)
Theorem empty_update_is_noop :
  (∀ env id t loaded,
     fault env = None →
     CustomerService.get_customer id (session_of t)
       = (Ok 200 loaded, session_of t) →
     CustomerService.update_customer env id ∅ (session_of t)
     = (Ok 200 loaded, session_of t))
  ∧ (∀ ucols env id t loaded,
     fault env = None →
     ProductService.get_product id (session_of t)
       = (Ok 200 loaded, session_of t) →
     ProductService.update_product ucols env id ∅ (session_of t)
     = (Ok 200 loaded, session_of t)).
Proof.
  split.
  - apply customer_update_empty.
  - intros. by apply product_update_empty.
Qed.

Lemma empty_update_is_noop_witness :
  CustomerService.update_customer env_ok 2 ∅ (session_of [ann; bob])
  = (Ok 200 bob, session_of [ann; bob]).
Proof.
  apply (proj1 empty_update_is_noop env_ok 2 [ann; bob] bob).
  - reflexivity.
  - reflexivity.
Defined.

(** * Further properties of the handlers *)

(** ** Creation *)

Lemma clash_absent pk_col id (obj r : Row) t :
  absent pk_col id t → obj !! pk_col = Some (VInt id) → r ∈ t →
  clash pk_col obj r = false.
Proof.
  intros Habs Hobj Hr. unfold clash. rewrite Hobj.
  destruct (r !! pk_col) as [vb|] eqn:Hb; [|done].
  apply bool_decide_eq_false_2. intros <-. by apply (Habs r).
Qed.

Lemma filter_pk_snoc pk_col id (row : Row) t :
  absent pk_col id t → row !! pk_col = Some (VInt id) →
  filter_pk pk_col id (t ++ [row]) = [row].
Proof.
  intros Habs Hrow. unfold filter_pk. rewrite List.filter_app.
  fold (filter_pk pk_col id t). rewrite filter_pk_absent by done.
  cbn. unfold has_pk, pk_of. by rewrite bool_decide_eq_true_2.
Qed.

(** Unless the storage fails otherwise, what is raised at a stage is
    the uniqueness violation. *)
Lemma fault_at_integrity env s e :
  fault env = None ∨ fault env = Some IntegrityError →
  fault_at env s = Some e → e = IntegrityError.
Proof.
  intros [Hn|Hi] Hf.
  - by rewrite (fault_at_none _ _ Hn) in Hf.
  - unfold fault_at in Hf. rewrite Hi in Hf.
    destruct (site env), s; congruence.
Qed.

Section AddFacts.

Variable pk_col : string.
Variable unique_cols : list string.

Lemma flushed_new env (obj : Row) :
  obj !! pk_col = None →
  flushed pk_col env obj = <[pk_col := VInt (genid env)]> obj.
Proof. intros H. unfold flushed, pk_of. by rewrite H. Qed.

Lemma free_in_flushed env (obj : Row) t c :
  absent pk_col (genid env) t → obj !! pk_col = None →
  free_in c obj t → free_in c (<[pk_col := VInt (genid env)]> obj) t.
Proof.
  intros Habs Hobj Hfree r v Hr Hv Hne.
  destruct (decide (pk_col = c)) as [<-|Hc].
  - rewrite lookup_insert_eq in Hv. injection Hv as <-. by apply Habs.
  - rewrite lookup_insert_ne in Hv by done. by eapply Hfree.
Qed.

(** A new object whose generated key and unique values are free is
    appended by a commit that meets no storage failure. *)
Lemma commit_add env (obj : Row) t :
  fault_at env AtCommit = None → obj !! pk_col = None →
  absent pk_col (genid env) t →
  (∀ c, c ∈ unique_cols → free_in c obj t) →
  commit pk_col unique_cols env (add obj (session_of t))
  = (None, session_of (t ++ [<[pk_col := VInt (genid env)]> obj])).
Proof.
  intros Hf Hobj Habs Hfree.
  rewrite commit_flushes by done. unfold add.
  cbn [pending table session_of app flush flush_op].
  rewrite flushed_new by done.
  rewrite violates_false; [done|].
  intros c r [->|Hc]%elem_of_cons Hr.
  - eapply clash_absent; [done| |done]. apply lookup_insert_eq.
  - eapply clash_free; [|done]. apply free_in_flushed; auto.
Qed.

(** It is then the row found under its key, and the row a refresh
    loads. *)
Lemma commit_add_ok env (obj : Row) t :
  fault env = None → obj !! pk_col = None →
  absent pk_col (genid env) t →
  (∀ c, c ∈ unique_cols → free_in c obj t) →
  let row := <[pk_col := VInt (genid env)]> obj in
  commit_refresh pk_col unique_cols env (flushed pk_col env obj)
    (add obj (session_of t))
    = (inr row, session_of (t ++ [row]))
  ∧ first (filter_pk pk_col (genid env) (t ++ [row])) = Some row.
Proof.
  intros Hf Hobj Habs Hfree row.
  assert (row !! pk_col = Some (VInt (genid env))) as Hrow
    by apply lookup_insert_eq.
  rewrite filter_pk_snoc by done. split; [|done].
  rewrite (commit_refresh_ok _ _ _ _ _ (session_of (t ++ [row])))
    by (by apply fault_at_none || apply commit_add; auto using fault_at_none).
  rewrite flushed_new by done. fold row.
  rewrite (reload_filter_pk pk_col (genid env)) by done.
  cbn [table session_of]. by rewrite filter_pk_snoc.
Qed.

(** When the refresh after such a commit fails, the failure is raised
    with the row stored. *)
Lemma commit_add_refresh_fault env e (obj : Row) t :
  fault env = Some e → site env = AtRefresh → obj !! pk_col = None →
  absent pk_col (genid env) t →
  (∀ c, c ∈ unique_cols → free_in c obj t) →
  commit_refresh pk_col unique_cols env (flushed pk_col env obj)
    (add obj (session_of t))
  = (inl e, session_of (t ++ [<[pk_col := VInt (genid env)]> obj])).
Proof.
  intros Hf Hs Hobj Habs Hfree.
  assert (fault_at env AtCommit = None ∧ fault_at env AtRefresh = Some e)
    as [Hc Hr] by (unfold fault_at; by rewrite Hs).
  unfold commit_refresh, refresh. by rewrite commit_add, Hr.
Qed.

(** A new object that holds the non NULL value of a stored row in a unique
    column is refused by the flush. *)
Lemma flush_add_collides env (obj r : Row) t c v :
  c ∈ pk_col :: unique_cols → r ∈ t → r !! c = Some v → v ≠ VNone →
  obj !! c = Some v →
  flush_op pk_col unique_cols env t (OpAdd obj) = inl IntegrityError.
Proof.
  intros Hc Hr Hrv Hv Hobj. cbn [flush_op].
  assert (flushed pk_col env obj !! c = Some v) as Hfl.
  { unfold flushed, pk_of. destruct (obj !! pk_col) as [w|] eqn:Hpk.
    - destruct w; try done.
      destruct (decide (pk_col = c)) as [<-|]; [congruence|].
      by rewrite lookup_insert_ne.
    - destruct (decide (pk_col = c)) as [<-|]; [congruence|].
      by rewrite lookup_insert_ne. }
  assert (violates (pk_col :: unique_cols) t (flushed pk_col env obj) = true)
    as ->; [|done].
  unfold violates. apply existsb_exists. exists c.
  split; [by apply list_elem_of_In|].
  apply existsb_exists. exists r. split; [by apply list_elem_of_In|].
  unfold clash. rewrite Hfl, Hrv.
  destruct v; try done; by apply bool_decide_eq_true_2.
Qed.

End AddFacts.

Lemma free_in_insert_ne pk_col c v (obj : Row) t :
  pk_col ≠ c → free_in c (<[pk_col := v]> obj) t → free_in c obj t.
Proof.
  intros Hne H r w Hr Hw. apply (H r w Hr). by rewrite lookup_insert_ne.
Qed.

(** X1.  On a storage that does not fail, creating a customer whose
    generated key and whose email are not in the table answers 201 with
    the customer under that key, appends it after the stored rows, and a
    Get of the key then answers the same entity.  The password of the
    request is stored as it is given, under [password_hash]. *)
Theorem customer_create_then_get env c t :
  fault env = None →
  absent CustomerService.pk_col (genid env) t →
  free_in "email" (stored_customer env c) t →
  CustomerService.create_customer env c (session_of t)
    = (Ok 201 (stored_customer env c),
       session_of (t ++ [stored_customer env c]))
  ∧ CustomerService.get_customer (genid env)
      (session_of (t ++ [stored_customer env c]))
    = (Ok 200 (stored_customer env c),
       session_of (t ++ [stored_customer env c]))
  ∧ stored_customer env c !! "customer_id" = Some (VInt (genid env))
  ∧ stored_customer env c !! "email" = Some (CustomerService.email c)
  ∧ stored_customer env c !! "password_hash"
    = Some (CustomerService.password c)
  ∧ stored_customer env c !! "first_name"
    = Some (CustomerService.first_name c)
  ∧ stored_customer env c !! "last_name" = Some (CustomerService.last_name c)
  ∧ stored_customer env c !! "phone_number"
    = Some (CustomerService.phone_number c)
  ∧ stored_customer env c !! "shipping_address"
    = Some (CustomerService.shipping_address c).
Proof.
  intros Hf Habs Hfree.
  set (obj := CustomerService.Customer
       (CustomerService.email c) (CustomerService.password c)
       (CustomerService.first_name c) (CustomerService.last_name c)
       (CustomerService.phone_number c) (CustomerService.shipping_address c)).
  assert (obj !! CustomerService.pk_col = None) as Hobj by reflexivity.
  destruct (commit_add_ok CustomerService.pk_col CustomerService.unique_cols
              env obj t Hf Hobj Habs) as (Hcommit & Hget).
  { intros c' Hc'. apply list_elem_of_singleton in Hc' as ->.
    by apply (free_in_insert_ne CustomerService.pk_col "email"
                (VInt (genid env))). }
  split; [|split].
  - unfold CustomerService.create_customer. fold obj.
    by rewrite Hcommit.
  - unfold CustomerService.get_customer, query. cbn [table session_of].
    unfold stored_customer. fold obj. by rewrite Hget.
  - repeat split.
Qed.

Lemma customer_create_then_get_witness :
  CustomerService.create_customer env_ok carol (session_of [ann; bob])
  = (Ok 201 (stored_customer env_ok carol),
     session_of [ann; bob; stored_customer env_ok carol])
  ∧ CustomerService.get_customer 3
      (session_of [ann; bob; stored_customer env_ok carol])
    = (Ok 200 (stored_customer env_ok carol),
       session_of [ann; bob; stored_customer env_ok carol]).
Proof.
  destruct (customer_create_then_get env_ok carol [ann; bob])
    as (H1 & H2 & _).
  - reflexivity.
  - intros r Hr. apply elem_of_cons in Hr as [->|Hr]; [discriminate|].
    apply elem_of_cons in Hr as [->|Hr]; [discriminate|]. inversion Hr.
  - intros r v Hr Hv _. injection Hv as <-.
    apply elem_of_cons in Hr as [->|Hr]; [discriminate|].
    apply elem_of_cons in Hr as [->|Hr]; [discriminate|]. inversion Hr.
  - split; [exact H1 | exact H2].
Defined.

(** X2.  On a storage that does not fail, creating a product whose payload
    carries no key, whose generated key is not in the table and whose
    values in the unique columns are held by no stored row answers 201 with
    the payload under the generated key, appends it after the stored rows,
    and a Get of the key then answers the same entity. *)
Theorem product_create_then_get ucols env (p : Row) t :
  fault env = None → p !! ProductService.pk_col = None →
  absent ProductService.pk_col (genid env) t →
  (∀ c, c ∈ ucols → free_in c p t) →
  let row := <[ProductService.pk_col := VInt (genid env)]> p in
  ProductService.create_product ucols env p (session_of t)
    = (Ok 201 row, session_of (t ++ [row]))
  ∧ ProductService.get_product (genid env) (session_of (t ++ [row]))
    = (Ok 200 row, session_of (t ++ [row]))
  ∧ ∀ k, k ≠ ProductService.pk_col → row !! k = p !! k.
Proof.
  intros Hf Hp Habs Hfree row.
  destruct (commit_add_ok ProductService.pk_col ucols env p t Hf Hp Habs Hfree)
    as (Hcommit & Hget).
  subst row. split; [|split].
  - unfold ProductService.create_product, ProductService.Product.
    by rewrite Hcommit.
  - unfold ProductService.get_product, query. cbn [table session_of].
    by rewrite Hget.
  - intros k Hk. by rewrite lookup_insert_ne.
Qed.

Lemma product_create_then_get_witness :
  ProductService.create_product ["name"] env_ok (<["name" := VStr "Pot"]> ∅)
    (session_of two_products)
  = (Ok 201 (product_row 3 "Pot"),
     session_of (two_products ++ [product_row 3 "Pot"])).
Proof.
  destruct (product_create_then_get ["name"] env_ok
              (<["name" := VStr "Pot"]> ∅) two_products) as (H & _).
  - reflexivity.
  - reflexivity.
  - intros r Hr. apply elem_of_cons in Hr as [->|Hr]; [discriminate|].
    apply elem_of_cons in Hr as [->|Hr]; [discriminate|]. inversion Hr.
  - intros c Hc r v Hr Hv _. apply list_elem_of_singleton in Hc as ->.
    injection Hv as <-.
    apply elem_of_cons in Hr as [->|Hr]; [discriminate|].
    apply elem_of_cons in Hr as [->|Hr]; [discriminate|]. inversion Hr.
  - exact H.
Defined.

(** X3.  On a storage that does not fail, creating an order whose payload
    carries no key, whose generated key is not in the table and whose
    values in the unique columns are held by no stored row answers 201 with
    the payload under the generated key, appends it after the stored rows,
    and a Get of the key then answers the same entity. *)
Theorem order_create_then_get ucols env (order : Row) t :
  fault env = None → order !! OrderService.pk_col = None →
  absent OrderService.pk_col (genid env) t →
  (∀ c, c ∈ ucols → free_in c order t) →
  let row := <[OrderService.pk_col := VInt (genid env)]> order in
  OrderService.create_order ucols env order (session_of t)
    = (Ok 201 row, session_of (t ++ [row]))
  ∧ OrderService.get_order (genid env) (session_of (t ++ [row]))
    = (Ok 200 row, session_of (t ++ [row]))
  ∧ ∀ k, k ≠ OrderService.pk_col → row !! k = order !! k.
Proof.
  intros Hf Hp Habs Hfree row.
  destruct (commit_add_ok OrderService.pk_col ucols env order t Hf Hp Habs Hfree)
    as (Hcommit & Hget).
  subst row. split; [|split].
  - unfold OrderService.create_order, OrderService.Order.
    by rewrite Hcommit.
  - unfold OrderService.get_order, query. cbn [table session_of].
    by rewrite Hget.
  - intros k Hk. by rewrite lookup_insert_ne.
Qed.

Lemma order_create_then_get_witness :
  OrderService.create_order [] {| fault := None; site := AtCommit; genid := 6 |}
    (<["customer_id" := VInt 2]> ∅) (session_of five_orders)
  = (Ok 201 (order_row 6 2), session_of (five_orders ++ [order_row 6 2])).
Proof.
  destruct (order_create_then_get [] {| fault := None; site := AtCommit; genid := 6 |}
              (<["customer_id" := VInt 2]> ∅) five_orders) as (H & _).
  - reflexivity.
  - reflexivity.
  - intros r Hr.
    repeat (apply elem_of_cons in Hr as [->|Hr]; [discriminate|]).
    inversion Hr.
  - intros c Hc. inversion Hc.
  - exact H.
Defined.

(** X4.  Creating a product that holds, in a unique column, the non NULL
    value of a stored product stores nothing: the session is left as it
    was found, and unless the commit meets another storage failure the
    answer is 400 with the detail "Product already exists". *)
Theorem product_create_duplicate ucols env (p r : Row) t c v :
  c ∈ ucols → r ∈ t → r !! c = Some v → v ≠ VNone → p !! c = Some v →
  snd (ProductService.create_product ucols env p (session_of t))
    = session_of t
  ∧ (fault env = None ∨ fault env = Some IntegrityError →
     fst (ProductService.create_product ucols env p (session_of t))
     = HTTPException 400 "Product already exists").
Proof.
  intros Hc Hr Hrv Hv Hp.
  unfold ProductService.create_product, ProductService.Product, add,
    commit_refresh, commit.
  cbn [table pending session_of app flush].
  rewrite (flush_add_collides ProductService.pk_col ucols env p r t c v)
    by (done || by right).
  destruct (fault_at env AtCommit) as [e|] eqn:Hf.
  - split; [by destruct e|]. intros Hor.
    by rewrite (fault_at_integrity env AtCommit e Hor Hf).
  - done.
Qed.

Lemma product_create_duplicate_witness :
  ProductService.create_product ["name"] env_ok (<["name" := VStr "Cup"]> ∅)
    (session_of two_products)
  = (HTTPException 400 "Product already exists", session_of two_products).
Proof.
  destruct (product_create_duplicate ["name"] env_ok
              (<["name" := VStr "Cup"]> ∅) (product_row 2 "Cup")
              two_products "name" (VStr "Cup")) as [H1 H2].
  - left.
  - right. left.
  - reflexivity.
  - discriminate.
  - reflexivity.
  - apply injective_projections; [apply H2; left; reflexivity | exact H1].
Defined.

(** ** Updates and deletions *)

Section SetFacts.

Variable pk_col : string.
Variable unique_cols : list string.

(** An update that moves a unique column to the non NULL value of another
    row is refused by the flush. *)
Lemma flush_set_collides env (loaded current r : Row) t c v :
  c ∈ pk_col :: unique_cols → r ∈ t → same_pk pk_col loaded r = false →
  r !! c = Some v → v ≠ VNone → current !! c = Some v →
  loaded !! c ≠ Some v →
  flush_op pk_col unique_cols env t (OpSet loaded current)
  = inl IntegrityError.
Proof.
  intros Hc Hr Hpk Hrv Hv Hcur Hold. cbn [flush_op].
  rewrite decide_False by (intros ->; congruence).
  assert (violates
            (List.filter (changed loaded current) (pk_col :: unique_cols))
            (List.filter (λ r, negb (same_pk pk_col loaded r)) t) current
          = true) as ->; [|done].
  unfold violates. apply existsb_exists. exists c. split.
  - apply filter_In. split; [by apply list_elem_of_In|].
    unfold changed. apply bool_decide_eq_true_2. congruence.
  - apply existsb_exists. exists r. split.
    + apply filter_In. split; [by apply list_elem_of_In|]. by rewrite Hpk.
    + unfold clash. rewrite Hcur, Hrv.
      destruct v; try done; by apply bool_decide_eq_true_2.
Qed.

Lemma setattrs_twice (data obj : Row) :
  setattrs data (setattrs data obj) = setattrs data obj.
Proof.
  rewrite !setattrs_union.
  by rewrite (assoc_L (∪)), (idemp_L (∪)).
Qed.

(** The session a committed update leaves, and what the same update then
    finds. *)
Lemma commit_modified_again env id (data : Row) t loaded db' :
  first (filter_pk pk_col id t) = Some loaded →
  data !! pk_col = None →
  commit pk_col unique_cols env
    (modified loaded (setattrs data loaded) (session_of t)) = (None, db') →
  db' = session_of (table db')
  ∧ first (filter_pk pk_col id (table db')) = Some (setattrs data loaded)
  ∧ reload pk_col (setattrs data loaded) db' = setattrs data loaded.
Proof.
  intros Hfirst Hdata Hcommit.
  destruct (commit_modified_ok _ _ _ _ _ _ _ _ Hfirst Hdata Hcommit)
    as (Hrefresh & Hpending & Hget & _).
  split; [|done]. destruct db' as [t' p']. cbn in Hpending. by subst.
Qed.

Lemma commit_delete_without env id (obj : Row) t :
  fault env = None →
  first (filter_pk pk_col id t) = Some obj →
  commit pk_col unique_cols env (delete obj (session_of t))
  = (None, session_of (without pk_col id t)).
Proof.
  intros Hf Hfirst. destruct (first_filter_pk _ _ _ _ Hfirst) as [_ Hpk].
  rewrite commit_delete by done. do 2 f_equal. unfold without.
  apply filter_ext. intros r. by rewrite (same_pk_has_pk _ id).
Qed.

(** Under a unique key the lookup by identifier finds the row that
    carries it. *)
Lemma first_filter_unique id (r : Row) t :
  unique_on pk_col t → r ∈ t → r !! pk_col = Some (VInt id) →
  first (filter_pk pk_col id t) = Some r.
Proof.
  intros Hu Hr Hpk.
  destruct (unique_pk_split pk_col r t (VInt id) Hu Hr Hpk) as (l1 & l2 & -> & Hno);
    [done|].
  assert (∀ l : list Row, (∀ r', r' ∈ l → same_pk pk_col r r' = false) →
          filter_pk pk_col id l = []) as Hnone.
  { induction l as [|r' l IH]; [done|]. intros H. unfold filter_pk. cbn.
    rewrite <- (same_pk_has_pk pk_col id r) by done.
    rewrite (H r') by left. apply IH. intros r'' Hr''. apply H. by right. }
  unfold filter_pk. rewrite List.filter_app. cbn.
  fold (filter_pk pk_col id l1). fold (filter_pk pk_col id l2).
  rewrite Hnone by (intros r' Hr'; apply Hno, elem_of_app; auto).
  unfold has_pk, pk_of. by rewrite bool_decide_eq_true_2.
Qed.

End SetFacts.

(** X5.  Updating a stored customer to the non NULL email of another
    stored customer changes nothing: the session is left as it was found,
    and unless the commit meets another storage failure the answer is 400
    with the detail "Updated email already exists". *)
Theorem customer_update_email_taken env id (data loaded r : Row) t v :
  CustomerService.get_customer id (session_of t)
    = (Ok 200 loaded, session_of t) →
  r ∈ t → r !! CustomerService.pk_col ≠ Some (VInt id) →
  r !! "email" = Some v → v ≠ VNone →
  data !! "email" = Some v → loaded !! "email" ≠ Some v →
  snd (CustomerService.update_customer env id data (session_of t))
    = session_of t
  ∧ (fault env = None ∨ fault env = Some IntegrityError →
     fst (CustomerService.update_customer env id data (session_of t))
     = HTTPException 400 "Updated email already exists").
Proof.
  unfold CustomerService.get_customer, query. cbn [table session_of].
  destruct (first (filter_pk _ id t)) as [loaded'|] eqn:Hfirst; [|done].
  intros [= ->] Hr Hrpk Hrv Hv Hdata Hold.
  destruct (first_filter_pk _ _ _ _ Hfirst) as [_ Hpk].
  unfold CustomerService.update_customer, query, modified, commit_refresh,
    commit.
  cbn [table pending session_of app flush]. rewrite Hfirst.
  rewrite (flush_set_collides CustomerService.pk_col
             CustomerService.unique_cols env loaded (setattrs data loaded)
             r t "email" v); try done.
  - destruct (fault_at env AtCommit) as [e|] eqn:Hf.
    + split; [by destruct e|]. intros Hor.
      by rewrite (fault_at_integrity env AtCommit e Hor Hf).
    + done.
  - right. left.
  - rewrite (same_pk_has_pk _ id) by done.
    unfold has_pk, pk_of. by apply bool_decide_eq_false_2.
  - by apply setattrs_set.
Qed.

Lemma customer_update_email_taken_witness :
  CustomerService.update_customer env_ok 2 {["email" := VStr "a@x.com"]}
    (session_of [ann; bob])
  = (HTTPException 400 "Updated email already exists", session_of [ann; bob]).
Proof.
  destruct (customer_update_email_taken env_ok 2 {["email" := VStr "a@x.com"]}
              bob ann [ann; bob] (VStr "a@x.com")) as [H1 H2].
  - reflexivity.
  - left.
  - discriminate.
  - reflexivity.
  - discriminate.
  - reflexivity.
  - discriminate.
  - apply injective_projections; [apply H2; left; reflexivity | exact H1].
Defined.

(** X6.  Updates are idempotent: once an update of a customer or a product
    is committed, the same partial input sent again, on a storage that
    does not fail, is answered with the same entity and leaves the session
    as the first update left it. *)
Theorem update_twice :
  (∀ env env' id (data : Row) t body db',
     data !! CustomerService.pk_col = None → fault env' = None →
     CustomerService.update_customer env id data (session_of t)
       = (Ok 200 body, db') →
     CustomerService.update_customer env' id data db' = (Ok 200 body, db'))
  ∧ (∀ ucols env env' id (data : Row) t body db',
     data !! ProductService.pk_col = None → fault env' = None →
     ProductService.update_product ucols env id data (session_of t)
       = (Ok 200 body, db') →
     ProductService.update_product ucols env' id data db' = (Ok 200 body, db')).
Proof.
  split.
  - intros env env' id data t body db' Hdata Hf.
    unfold CustomerService.update_customer at 1. unfold query.
    cbn [table session_of].
    destruct (first (filter_pk _ id t)) as [loaded|] eqn:Hfirst; [|done].
    destruct (commit_refresh _ _ _ _ _) as [[e|row] db1] eqn:Hcr;
      [by destruct e|].
    apply commit_refresh_inr in Hcr as [Hcommit ->].
    destruct (commit_modified_again _ _ _ _ _ _ _ _ Hfirst Hdata Hcommit)
      as (Hdb & Hget & Hrefresh).
    rewrite Hrefresh. intros [= <- <-].
    unfold CustomerService.update_customer, query.
    rewrite Hget, setattrs_twice, Hdb.
    rewrite (commit_refresh_ok _ _ _ _ _ (session_of (table db1)))
      by (by apply fault_at_none || by apply commit_unmodified).
    rewrite (reload_loaded _ id) by done. by rewrite <- Hdb.
  - intros ucols env env' id data t body db' Hdata Hf.
    unfold ProductService.update_product at 1. unfold query.
    cbn [table session_of].
    destruct (first (filter_pk _ id t)) as [loaded|] eqn:Hfirst; [|done].
    destruct (commit_refresh _ _ _ _ _) as [[e|row] db1] eqn:Hcr; [done|].
    apply commit_refresh_inr in Hcr as [Hcommit ->].
    destruct (commit_modified_again _ _ _ _ _ _ _ _ Hfirst Hdata Hcommit)
      as (Hdb & Hget & Hrefresh).
    rewrite Hrefresh. intros [= <- <-].
    unfold ProductService.update_product, query.
    rewrite Hget, setattrs_twice, Hdb.
    rewrite (commit_refresh_ok _ _ _ _ _ (session_of (table db1)))
      by (by apply fault_at_none || by apply commit_unmodified).
    rewrite (reload_loaded _ id) by done. by rewrite <- Hdb.
Qed.

Lemma update_twice_witness :
  CustomerService.update_customer env_ok 1 {["first_name" := VStr "X"]}
    (session_of [bob; <["first_name" := VStr "X"]> ann])
  = (Ok 200 (<["first_name" := VStr "X"]> ann),
     session_of [bob; <["first_name" := VStr "X"]> ann]).
Proof.
  apply (proj1 update_twice env_ok env_ok 1 {["first_name" := VStr "X"]}
           [ann; bob]).
  - reflexivity.
  - reflexivity.
  - reflexivity.
Defined.

(** X7.  On a storage that does not fail, deleting a stored identifier
    answers 204 and leaves exactly the rows of the other identifiers, in
    their order; deleting the same identifier again answers 404.  This
    holds in the customer, the order and the product service. *)
Theorem delete_removes_only_the_id :
  (∀ env id t,
     fault env = None → ¬ absent CustomerService.pk_col id t →
     CustomerService.delete_customer env id (session_of t)
       = (Ok 204 tt, session_of (without CustomerService.pk_col id t))
     ∧ (∀ r, r ∈ without CustomerService.pk_col id t
             ↔ r ∈ t ∧ r !! CustomerService.pk_col ≠ Some (VInt id))
     ∧ CustomerService.delete_customer env id
         (session_of (without CustomerService.pk_col id t))
       = (HTTPException 404 "Customer not found",
          session_of (without CustomerService.pk_col id t)))
  ∧ (∀ ucols env id t,
     fault env = None → ¬ absent OrderService.pk_col id t →
     OrderService.delete_order ucols env id (session_of t)
       = (Ok 204 tt, session_of (without OrderService.pk_col id t))
     ∧ (∀ r, r ∈ without OrderService.pk_col id t
             ↔ r ∈ t ∧ r !! OrderService.pk_col ≠ Some (VInt id))
     ∧ OrderService.delete_order ucols env id
         (session_of (without OrderService.pk_col id t))
       = (HTTPException 404 "Order not found",
          session_of (without OrderService.pk_col id t)))
  ∧ (∀ ucols env id t,
     fault env = None → ¬ absent ProductService.pk_col id t →
     ProductService.delete_product ucols env id (session_of t)
       = (Ok 204 tt, session_of (without ProductService.pk_col id t))
     ∧ (∀ r, r ∈ without ProductService.pk_col id t
             ↔ r ∈ t ∧ r !! ProductService.pk_col ≠ Some (VInt id))
     ∧ ProductService.delete_product ucols env id
         (session_of (without ProductService.pk_col id t))
       = (HTTPException 404 "Product not found",
          session_of (without ProductService.pk_col id t))).
Proof.
  split; [|split].
  - intros env id t Hf [obj Hobj]%first_filter_present. split; [|split].
    + unfold CustomerService.delete_customer, query. cbn [table session_of].
      by rewrite Hobj, (commit_delete_without _ _ _ id).
    + intros r. apply elem_of_without.
    + apply (customer_absent env id _ ∅). apply absent_without.
  - intros ucols env id t Hf [obj Hobj]%first_filter_present. split; [|split].
    + unfold OrderService.delete_order, query. cbn [table session_of].
      by rewrite Hobj, (commit_delete_without _ _ _ id).
    + intros r. apply elem_of_without.
    + apply order_absent. apply absent_without.
  - intros ucols env id t Hf [obj Hobj]%first_filter_present. split; [|split].
    + unfold ProductService.delete_product, query. cbn [table session_of].
      by rewrite Hobj, (commit_delete_without _ _ _ id).
    + intros r. apply elem_of_without.
    + apply (product_absent ucols env id _ ∅). apply absent_without.
Qed.

Lemma delete_removes_only_the_id_witness :
  OrderService.delete_order [] env_ok 3 (session_of five_orders)
  = (Ok 204 tt,
     session_of [order_row 1 1; order_row 2 1; order_row 4 2; order_row 5 1]).
Proof.
  destruct (proj1 (proj2 delete_removes_only_the_id) [] env_ok 3 five_orders)
    as (H & _).
  - reflexivity.
  - intros Habs. apply (Habs (order_row 3 2)); [|reflexivity].
    right. right. left.
  - exact H.
Defined.

(** X8.  The product and the order service keep their tables consistent:
    when no two rows share a key, every request leaves the key and every
    unique column without a value held twice, whatever the database does
    during the request. *)
Theorem product_and_order_tables_stay_unique :
  (∀ ucols env req t c,
     c ∈ ProductService.pk_col :: ucols →
     unique_on ProductService.pk_col t → unique_on c t →
     unique_on c (product_serve ucols env req t))
  ∧ (∀ ucols env req t c,
     c ∈ OrderService.pk_col :: ucols →
     unique_on OrderService.pk_col t → unique_on c t →
     unique_on c (OrderService.serve ucols env req t)).
Proof.
  split.
  - intros ucols env req t c Hc Hpk Hu.
    destruct req as [p|q|id|id data|id]; cbn [product_serve].
    + unfold ProductService.create_product, add.
      cbn [table pending session_of app].
      destruct (commit_refresh _ _ _ _ _) as [o db'] eqn:Hcommit.
      apply commit_refresh_one in Hcommit as Hcases.
      assert (unique_on c (table db')) as Hgoal.
      { destruct Hcases as [->|Hflush]; [done|].
        by eapply flush_op_unique in Hflush. }
      destruct o as [[]|]; done.
    + done.
    + unfold ProductService.get_product. by destruct (first _).
    + unfold ProductService.update_product, query, modified.
      cbn [table pending session_of app].
      destruct (first _) as [loaded|] eqn:Hfirst; [|done].
      destruct (first_filter_pk _ _ _ _ Hfirst) as [Hin Hloaded].
      destruct (commit_refresh _ _ _ _ _) as [o db'] eqn:Hcommit.
      apply commit_refresh_one in Hcommit as Hcases.
      assert (unique_on c (table db')) as Hgoal.
      { destruct Hcases as [->|Hflush]; [done|].
        eapply flush_op_unique in Hflush; [done..|].
        split; [done|]. by exists (VInt id). }
      destruct o as [[]|]; done.
    + unfold ProductService.delete_product, query, delete.
      cbn [table pending session_of app].
      destruct (first _) as [loaded|] eqn:Hfirst; [|done].
      destruct (commit _ _ _ _) as [o db'] eqn:Hcommit.
      apply commit_one in Hcommit as Hcases.
      assert (unique_on c (table db')) as Hgoal.
      { destruct Hcases as [->|Hflush]; [done|].
        by eapply flush_op_unique in Hflush. }
      destruct o as [[]|]; done.
  - intros ucols env req t c Hc Hpk Hu.
    destruct req as [| |order|q|id|id]; cbn [OrderService.serve]; try done.
    + unfold OrderService.create_order, add.
      cbn [table pending session_of app].
      destruct (commit_refresh _ _ _ _ _) as [o db'] eqn:Hcommit.
      apply commit_refresh_one in Hcommit as Hcases.
      assert (unique_on c (table db')) as Hgoal.
      { destruct Hcases as [->|Hflush]; [done|].
        by eapply flush_op_unique in Hflush. }
      destruct o as [[]|]; done.
    + unfold OrderService.get_order. by destruct (first _).
    + unfold OrderService.delete_order, query, delete.
      cbn [table pending session_of app].
      destruct (first _) as [loaded|] eqn:Hfirst; [|done].
      destruct (commit _ _ _ _) as [o db'] eqn:Hcommit.
      apply commit_one in Hcommit as Hcases.
      assert (unique_on c (table db')) as Hgoal.
      { destruct Hcases as [->|Hflush]; [done|].
        by eapply flush_op_unique in Hflush. }
      destruct o as [[]|]; done.
Qed.

Lemma product_and_order_tables_stay_unique_witness :
  unique_on "name"
    (product_serve ["name"] env_ok
       (UpdateProduct 2 {["name" := VStr "Mug"]}) two_products).
Proof.
  apply (proj1 product_and_order_tables_stay_unique ["name"] env_ok
           (UpdateProduct 2 {["name" := VStr "Mug"]}) two_products "name").
  - right. left.
  - apply (bool_decide_unpack _). vm_compute. exact I.
  - apply (bool_decide_unpack _). vm_compute. exact I.
Defined.

(** X9.  When no two rows share a key, a Get of an identifier answers 200
    with the stored row that carries it and leaves the session as it was,
    in the customer, the order and the product service. *)
Theorem get_answers_the_stored_row :
  (∀ id (r : Row) t,
     unique_on CustomerService.pk_col t → r ∈ t →
     r !! CustomerService.pk_col = Some (VInt id) →
     CustomerService.get_customer id (session_of t) = (Ok 200 r, session_of t))
  ∧ (∀ id (r : Row) t,
     unique_on OrderService.pk_col t → r ∈ t →
     r !! OrderService.pk_col = Some (VInt id) →
     OrderService.get_order id (session_of t) = (Ok 200 r, session_of t))
  ∧ (∀ id (r : Row) t,
     unique_on ProductService.pk_col t → r ∈ t →
     r !! ProductService.pk_col = Some (VInt id) →
     ProductService.get_product id (session_of t) = (Ok 200 r, session_of t)).
Proof.
  split; [|split]; intros id r t Hu Hr Hpk.
  - unfold CustomerService.get_customer, query. cbn [table session_of].
    by rewrite (first_filter_unique _ id r).
  - unfold OrderService.get_order, query. cbn [table session_of].
    by rewrite (first_filter_unique _ id r).
  - unfold ProductService.get_product, query. cbn [table session_of].
    by rewrite (first_filter_unique _ id r).
Qed.

Lemma get_answers_the_stored_row_witness :
  CustomerService.get_customer 2 (session_of [ann; bob])
  = (Ok 200 bob, session_of [ann; bob]).
Proof.
  apply (proj1 get_answers_the_stored_row 2 bob [ann; bob]).
  - apply (bool_decide_unpack _). vm_compute. exact I.
  - right. left.
  - reflexivity.
Defined.

(** ** Listings *)

Lemma page_app skip limit limit' (t : list Row) :
  0 ≤ skip → 0 ≤ limit → 0 ≤ limit' →
  page skip limit t ++ page (skip + limit) limit' t
  = page skip (limit + limit') t.
Proof.
  intros Hs Hl Hl'. unfold page.
  rewrite !Z2Nat.inj_add by done.
  rewrite <- drop_drop. apply take_take_drop.
Qed.

Lemma page_beyond skip limit (t : list Row) :
  Z.of_nat (List.length t) ≤ skip → page skip limit t = [].
Proof.
  intros H. unfold page. rewrite drop_ge; [by rewrite take_nil|].
  change (@List.length Row t) with (@base.length Row t) in H. lia.
Qed.

Lemma filter_sublist (f : Row → bool) (t : list Row) :
  List.filter f t `sublist_of` t.
Proof.
  induction t as [|r t IH]; [constructor|]. cbn.
  destruct (f r); by constructor.
Qed.

Lemma page_sublist skip limit (t : list Row) : page skip limit t `sublist_of` t.
Proof.
  unfold page. etrans; [apply sublist_take|apply sublist_drop].
Qed.

(** The rows a customer search selects before paging. *)
Lemma customers_window db search :
  ∃ selected,
    selected `sublist_of` table db
    ∧ ∀ skip limit,
        CustomerService.list_customers db skip limit search
        = (all (query_limit limit (query_offset skip (inr selected))), db).
Proof.
  unfold CustomerService.list_customers, query.
  destruct search as [[|c s]|]; eexists; (split; [|done]);
    (done || apply filter_sublist).
Qed.

(** X10.  Paging composes: for a skip and limits that are not negative
    and whose sums are row counts of the database (below 2^63), the page
    after [skip] of [limit] rows followed by the next page of [limit']
    rows is the page after [skip] of [limit + limit'] rows, under any
    search of the customer list and in the product list; a skip that is a
    row count and at least the number of stored products answers the
    empty list. *)
Theorem consecutive_pages :
  (∀ db search skip limit limit',
     0 ≤ skip → 0 ≤ limit → 0 ≤ limit' →
     skip + limit < 2 ^ 63 → limit + limit' < 2 ^ 63 →
     ∃ a b,
       CustomerService.list_customers db skip limit search = (Ok 200 a, db)
       ∧ CustomerService.list_customers db (skip + limit) limit' search
         = (Ok 200 b, db)
       ∧ CustomerService.list_customers db skip (limit + limit') search
         = (Ok 200 (a ++ b), db))
  ∧ (∀ db skip limit limit',
     0 ≤ skip → 0 ≤ limit → 0 ≤ limit' →
     skip + limit < 2 ^ 63 → limit + limit' < 2 ^ 63 →
     ∃ a b,
       ProductService.list_products db skip limit = (Ok 200 a, db)
       ∧ ProductService.list_products db (skip + limit) limit' = (Ok 200 b, db)
       ∧ ProductService.list_products db skip (limit + limit')
         = (Ok 200 (a ++ b), db))
  ∧ (∀ db skip limit,
     0 ≤ limit < 2 ^ 63 →
     Z.of_nat (List.length (table db)) ≤ skip < 2 ^ 63 →
     ProductService.list_products db skip limit = (Ok 200 [], db)).
Proof.
  split; [|split].
  - intros db search skip limit limit' Hs Hl Hl' Hsl Hll.
    destruct (customers_window db search) as (sel & _ & H).
    rewrite !H, !window_page by lia.
    eexists _, _. by rewrite <- page_app.
  - intros db skip limit limit' Hs Hl Hl' Hsl Hll.
    unfold ProductService.list_products.
    rewrite !window_page by lia.
    eexists _, _. by rewrite <- page_app.
  - intros db skip limit Hl Hlen.
    unfold ProductService.list_products, query.
    rewrite window_page by lia. rewrite page_beyond; [done|lia].
Qed.

Lemma consecutive_pages_witness :
  ∃ a b,
    ProductService.list_products (session_of two_products) 0 1 = (Ok 200 a, session_of two_products)
    ∧ ProductService.list_products (session_of two_products) (0 + 1) 1
      = (Ok 200 b, session_of two_products)
    ∧ ProductService.list_products (session_of two_products) 0 (1 + 1)
      = (Ok 200 (a ++ b), session_of two_products).
Proof.
  apply (proj1 (proj2 consecutive_pages) (session_of two_products) 0 1 1); lia.
Defined.



Lemma lower_empty s : lower s = "" → s = "".
Proof. by destruct s. Qed.

(** X12.  The customer search does not depend on the letter case of the
    search text: two texts with the same lower-case form give the same
    answer, for every table, skip and limit. *)
Theorem search_text_case_insensitive db skip limit s s' :
  lower s = lower s' →
  CustomerService.list_customers db skip limit (Some s)
  = CustomerService.list_customers db skip limit (Some s').
Proof.
  intros Hlow. unfold CustomerService.list_customers.
  destruct s as [|c s], s' as [|c' s']; try done.
  do 5 f_equal. apply filter_ext. intros r.
  assert (∀ col, ilike col ("%" ++ String c s ++ "%")%string
                 = ilike col ("%" ++ String c' s' ++ "%")%string) as H.
  { intros col. unfold ilike. destruct col as [[]|]; try done.
    by rewrite !lower_app, Hlow. }
  by rewrite !H.
Qed.

Lemma search_text_case_insensitive_witness :
  CustomerService.list_customers (session_of [bob; ann]) 0 100 (Some "ZuBe")
  = CustomerService.list_customers (session_of [bob; ann]) 0 100 (Some "zube").
Proof.
  apply (search_text_case_insensitive (session_of [bob; ann]) 0 100
           "ZuBe" "zube").
  reflexivity.
Defined.

(** ** Startup *)

Lemma total_sleep_app tr tr' :
  total_sleep (tr ++ tr') = total_sleep tr + total_sleep tr'.
Proof.
  induction tr as [|ev tr IH]; [done|].
  destruct ev; cbn [app total_sleep]; lia.
Qed.

Lemma for_range_sleep on_other create_all i n :
  0 ≤ total_sleep (fst (for_range (attempt_body on_other create_all) i n))
    ≤ 5 * Z.of_nat n.
Proof.
  revert i. induction n as [|n IH]; intros i; [done|].
  cbn [for_range]. unfold attempt_body at 1 3.
  destruct (create_all i) as [[]|]; cbn; try lia.
  specialize (IH (S i)).
  destruct (for_range _ (S i) n) as [tr c]. cbn in *. lia.
Qed.

Lemma after_loop_fst r : fst (after_loop r) = fst r.
Proof. by destruct r as [tr [| |c]]. Qed.

(** X13.  In each service the startup hook sleeps 50 seconds at most,
    whatever [create_all] does; it does not sleep at all when the database
    initialisation is disabled, and it sleeps the full 50 seconds when all
    ten attempts meet a connectivity failure. *)
Theorem startup_sleeps_at_most_50s :
  (∀ environ create_all,
     0 ≤ total_sleep (fst (CustomerStartup.startup_event environ create_all))
       ≤ 50
     ∧ 0 ≤ total_sleep (fst (OrderStartup.startup_event environ create_all))
       ≤ 50
     ∧ 0 ≤ total_sleep (fst (ProductStartup.startup_event environ create_all))
       ≤ 50)
  ∧ (∀ environ create_all,
     db_disabled environ = true →
     total_sleep (fst (CustomerStartup.startup_event environ create_all)) = 0
     ∧ total_sleep (fst (OrderStartup.startup_event environ create_all)) = 0
     ∧ total_sleep (fst (ProductStartup.startup_event environ create_all)) = 0)
  ∧ (∀ environ create_all,
     db_disabled environ = false →
     (∀ i, (i < 10)%nat → create_all i = Some OperationalError) →
     total_sleep (fst (CustomerStartup.startup_event environ create_all)) = 50
     ∧ total_sleep (fst (OrderStartup.startup_event environ create_all)) = 50
     ∧ total_sleep (fst (ProductStartup.startup_event environ create_all))
       = 50).
Proof.
  assert (∀ on_other environ create_all,
    0 ≤ total_sleep (fst (if db_disabled environ then ([], Return)
          else after_loop
                 (for_range (attempt_body on_other create_all) 0 10))) ≤ 50)
    as Hbound.
  { intros on_other environ create_all. destruct (db_disabled environ); [done|].
    rewrite after_loop_fst.
    pose proof (for_range_sleep on_other create_all 0 10). lia. }
  assert (∀ on_other environ create_all,
    db_disabled environ = false →
    (∀ i, (i < 10)%nat → create_all i = Some OperationalError) →
    total_sleep (fst (if db_disabled environ then ([], Return)
          else after_loop
                 (for_range (attempt_body on_other create_all) 0 10))) = 50)
    as Hfull.
  { intros on_other environ create_all -> Hall.
    by rewrite after_loop_fst, for_range_exhausted. }
  split; [|split].
  - intros environ create_all. split; [|split].
    + apply (Hbound (λ _, Exit 1)).
    + apply (Hbound Raise).
    + apply (Hbound Raise).
  - intros environ create_all Hd.
    unfold CustomerStartup.startup_event, OrderStartup.startup_event,
      ProductStartup.startup_event. by rewrite Hd.
  - intros environ create_all Hd Hall. split; [|split].
    + by apply (Hfull (λ _, Exit 1)).
    + by apply (Hfull Raise).
    + by apply (Hfull Raise).
Qed.

Lemma startup_sleeps_at_most_50s_witness :
  total_sleep (fst (OrderStartup.startup_event ∅ (λ _, Some OperationalError)))
  = 50.
Proof.
  destruct (proj2 (proj2 startup_sleeps_at_most_50s) ∅
              (λ _, Some OperationalError)) as (_ & H & _).
  - reflexivity.
  - intros i _. reflexivity.
  - exact H.
Defined.

Lemma for_range_cases (create_all : nat → option exn) (i n : nat) :
  (∀ j, (j < n)%nat → create_all (i + j)%nat = Some OperationalError)
  ∨ ∃ k, (k < n)%nat
      ∧ (∀ j, (j < k)%nat → create_all (i + j)%nat = Some OperationalError)
      ∧ create_all (i + k)%nat ≠ Some OperationalError.
Proof.
  revert i. induction n as [|n IH]; intros i.
  - left. intros j Hj. lia.
  - destruct (decide (create_all i = Some OperationalError)) as [Hi|Hi].
    + destruct (IH (S i)) as [Hall|(k & Hk & Hbefore & Hstop)].
      * left. intros [|j] Hj.
        -- by rewrite Nat.add_0_r.
        -- replace (i + S j)%nat with (S i + j)%nat by lia. apply Hall. lia.
      * right. exists (S k). split; [lia|]. split.
        -- intros [|j] Hj.
           ++ by rewrite Nat.add_0_r.
           ++ replace (i + S j)%nat with (S i + j)%nat by lia.
              apply Hbefore. lia.
        -- by replace (i + S k)%nat with (S i + k)%nat by lia.
    + right. exists 0%nat. split; [lia|]. split.
      * intros j Hj. lia.
      * by rewrite Nat.add_0_r.
Qed.

(** X14.  A startup hook that is not disabled ends in exactly one of three
    ways: after ten connectivity failures it returns without the schema;
    or some attempt [k] among the ten, after [k] connectivity failures,
    creates the schema and the hook returns; or that attempt fails with
    another exception and the process ends, having attempted no more.
    This holds for the hook of each of the three services. *)
Theorem startup_ends_one_of_three_ways :
  ∀ environ create_all,
    db_disabled environ = false →
    ∀ startup_event,
      startup_event = CustomerStartup.startup_event
      ∨ startup_event = OrderStartup.startup_event
      ∨ startup_event = ProductStartup.startup_event →
      startup_event environ create_all = (failed_from 0 10, Return)
      ∨ (∃ k, (k < 10)%nat ∧ create_all k = None
           ∧ startup_event environ create_all
             = (failed_from 0 k ++ [Attempt k; Initialized], Return))
      ∨ (∃ k e, (k < 10)%nat ∧ create_all k = Some e ∧ e ≠ OperationalError
           ∧ fst (startup_event environ create_all)
             = failed_from 0 k ++ [Attempt k]
           ∧ lifespan (snd (startup_event environ create_all)) = Terminated).
Proof.
  intros environ create_all Hd startup_event Hhook.
  assert (∃ on_other, (∀ e, lifespan (on_other e) = Terminated)
            ∧ startup_event environ create_all
              = if db_disabled environ then ([], Return)
                else after_loop
                       (for_range (attempt_body on_other create_all) 0 10))
    as (on_other & Hterm & ->).
  { destruct Hhook as [->|[->| ->]].
    - by exists (λ _, Exit 1).
    - by exists Raise.
    - by exists Raise. }
  rewrite Hd.
  destruct (for_range_cases create_all 0 10)
    as [Hall|(k & Hk & Hbefore & Hstop)].
  - left. by rewrite for_range_exhausted.
  - right. rewrite (for_range_stops on_other create_all 0 10 k Hk Hbefore Hstop).
    cbn [Nat.add] in *. unfold attempt_body.
    destruct (create_all k) as [e|] eqn:Hck.
    + right. exists k, e. split; [done|]. split; [done|].
      split; [congruence|].
      destruct e; try done; cbn; by rewrite Hterm.
    + left. by exists k.
Qed.

Lemma startup_ends_one_of_three_ways_witness :
  CustomerStartup.startup_event ∅ (λ _, None) = (failed_from 0 10, Return)
  ∨ (∃ k, (k < 10)%nat ∧ (λ _ : nat, @None exn) k = None
       ∧ CustomerStartup.startup_event ∅ (λ _, None)
         = (failed_from 0 k ++ [Attempt k; Initialized], Return))
  ∨ (∃ k e, (k < 10)%nat ∧ (λ _ : nat, @None exn) k = Some e
       ∧ e ≠ OperationalError
       ∧ fst (CustomerStartup.startup_event ∅ (λ _, None))
         = failed_from 0 k ++ [Attempt k]
       ∧ lifespan (snd (CustomerStartup.startup_event ∅ (λ _, None)))
         = Terminated).
Proof.
  apply (startup_ends_one_of_three_ways ∅ (λ _, None)).
  - reflexivity.
  - left. reflexivity.
Defined.

(** X15.  Creating a customer or a product never alters or removes a
    stored row, whatever the database does: the table is left as it was,
    or with the new row, under its key, appended at the end. *)
Theorem create_keeps_stored_rows :
  (∀ env c t,
     table (snd (CustomerService.create_customer env c (session_of t))) = t
     ∨ table (snd (CustomerService.create_customer env c (session_of t)))
       = t ++ [stored_customer env c])
  ∧ (∀ ucols env (p : Row) t,
     table (snd (ProductService.create_product ucols env p (session_of t))) = t
     ∨ table (snd (ProductService.create_product ucols env p (session_of t)))
       = t ++ [flushed ProductService.pk_col env p]).
Proof.
  split.
  - intros env c t. unfold CustomerService.create_customer, add.
    cbn [table pending session_of app].
    destruct (commit_refresh _ _ _ _ _) as [o db'] eqn:Hc.
    apply commit_refresh_one in Hc as [Ht|Hflush].
    + left. by destruct o as [[]|].
    + cbn [flush_op] in Hflush. destruct (violates _ _ _); [done|].
      injection Hflush as Hflush. right.
      destruct o as [[]|]; exact (eq_sym Hflush).
  - intros ucols env p t. unfold ProductService.create_product, add.
    cbn [table pending session_of app].
    destruct (commit_refresh _ _ _ _ _) as [o db'] eqn:Hc.
    apply commit_refresh_one in Hc as [Ht|Hflush].
    + left. by destruct o as [[]|].
    + cbn [flush_op] in Hflush. destruct (violates _ _ _); [done|].
      injection Hflush as Hflush. right.
      destruct o as [[]|]; exact (eq_sym Hflush).
Qed.

(** X16.  A storage failure raised by the refresh that follows the commit
    of a Create leaves the new row stored: the customer and the product
    service answer 400 or 500 as for a failure at commit, the order
    service is left by the exception, and in all three the table holds the
    stored rows followed by the new row. *)
Theorem refresh_failure_keeps_the_row :
  (∀ env e c t,
     fault env = Some e → site env = AtRefresh →
     absent CustomerService.pk_col (genid env) t →
     free_in "email" (stored_customer env c) t →
     ∃ detail,
       CustomerService.create_customer env c (session_of t)
       = (HTTPException (failure_status e) detail,
          session_of (t ++ [stored_customer env c])))
  ∧ (∀ ucols env e (p : Row) t,
     fault env = Some e → site env = AtRefresh →
     p !! ProductService.pk_col = None →
     absent ProductService.pk_col (genid env) t →
     (∀ c, c ∈ ucols → free_in c p t) →
     ∃ detail,
       ProductService.create_product ucols env p (session_of t)
       = (HTTPException (failure_status e) detail,
          session_of (t ++ [<[ProductService.pk_col := VInt (genid env)]> p])))
  ∧ (∀ ucols env e (order : Row) t,
     fault env = Some e → site env = AtRefresh →
     order !! OrderService.pk_col = None →
     absent OrderService.pk_col (genid env) t →
     (∀ c, c ∈ ucols → free_in c order t) →
     OrderService.create_order ucols env order (session_of t)
     = (Uncaught e,
        session_of (t ++ [<[OrderService.pk_col := VInt (genid env)]> order]))).
Proof.
  split; [|split].
  - intros env e c t Hf Hs Habs Hfree.
    unfold CustomerService.create_customer.
    rewrite (commit_add_refresh_fault _ _ _ e); try done.
    + destruct e; eauto.
    + intros c' Hc'. apply list_elem_of_singleton in Hc' as ->.
      by apply (free_in_insert_ne CustomerService.pk_col "email"
                  (VInt (genid env))).
  - intros ucols env e p t Hf Hs Hp Habs Hfree.
    unfold ProductService.create_product, ProductService.Product.
    rewrite (commit_add_refresh_fault _ _ _ e) by done.
    destruct e; eauto.
  - intros ucols env e order t Hf Hs Hp Habs Hfree.
    unfold OrderService.create_order, OrderService.Order.
    by rewrite (commit_add_refresh_fault _ _ _ e).
Qed.

Lemma refresh_failure_keeps_the_row_witness :
  ∃ detail,
    CustomerService.create_customer
      {| fault := Some OperationalError; site := AtRefresh; genid := 3 |}
      carol (session_of [ann; bob])
    = (HTTPException 500 detail,
       session_of
         ([ann; bob]
          ++ [stored_customer
                {| fault := Some OperationalError; site := AtRefresh;
                   genid := 3 |} carol])).
Proof.
  apply (proj1 refresh_failure_keeps_the_row
           {| fault := Some OperationalError; site := AtRefresh; genid := 3 |}
           OperationalError carol [ann; bob]).
  - reflexivity.
  - reflexivity.
  - intros r Hr. apply elem_of_cons in Hr as [->|Hr]; [discriminate|].
    apply elem_of_cons in Hr as [->|Hr]; [discriminate|]. inversion Hr.
  - intros r v Hr Hv _. injection Hv as <-.
    apply elem_of_cons in Hr as [->|Hr]; [discriminate|].
    apply elem_of_cons in Hr as [->|Hr]; [discriminate|]. inversion Hr.
Defined.
